(** * luxafor_ble.const: BLE constants of the Luxafor Dot

    A shallow embedding of [src/luxafor_ble/const.py]: the module constants,
    the six [IntEnum] classes, the [uuid] property of [DotCharacteristic]
    and the compiled MAC address pattern, with the parts of Python's
    [enum], [str.format], [uuid.UUID] and [re] that the module calls.
    [IS_LINUX], read from the platform when the module is imported, takes
    no part in what follows and is left out. *)

From Stdlib Require Import ZArith NArith String Ascii List Bool Lia.
Import ListNotations.

Local Open Scope Z_scope.

(** ** Python strings and exceptions *)

(** A Python [str] is a sequence of Unicode code points. *)
Definition char := N.
Definition str := list char.

(** The [str] written by an ASCII literal of the source. *)
Definition lit (s : string) : str := map N_of_ascii (list_ascii_of_string s).

Definition str_eqb (a b : str) : bool :=
  if list_eq_dec N.eq_dec a b then true else false.

(** What the [ValueError]s raised along the paths of this module say. *)
Inductive error_message : Type :=
| not_a_valid (value : Z) (qualname : str)
    (* "%r is not a valid %s" % (value, cls.__qualname__), from enum *)
| badly_formed_hexadecimal_UUID_string
| int_is_out_of_range
| invalid_literal_for_int (s : str)
| invalid_format_string.

Inductive exn : Type :=
| ValueError (m : error_message)
| IndexError.

(** A call either returns a value or raises. *)
Inductive result (A : Type) : Type :=
| Return (a : A)
| Raise (e : exn).
Arguments Return {A} a.
Arguments Raise {A} e.

Definition bind {A B} (r : result A) (k : A -> result B) : result B :=
  match r with
  | Return a => k a
  | Raise e => Raise e
  end.

Notation "x <- c ;; k" := (bind c (fun x => k))
  (at level 61, c at next level, right associativity).

(** ** Module constants *)

(* Bluetooth names of supported devices. We only check the first 7 chars *)
Definition LUXAFOR_BLUETOOTH_NAMES : list str := [lit "lux dot"].

(* Format for all Luxafor's BLE UUIDs *)
Definition UUID_TEMPLATE : str := lit "0000{:0>4x}-0000-1000-8000-00805f9b34fb".

(* Placeholder value to fill in blank values *)
Definition LUXAFOR_DONT_CARE : Z := 0x00.

(** ** enum.IntEnum *)

(** An [IntEnum] class: its [__qualname__], its members in definition
    order, and each member's [name] and [value]. *)
Class IntEnum (A : Type) : Type := {
  qualname : str;
  members : list A;
  name : A -> str;
  value : A -> Z
}.

(** [cls(v)]: the lookup of a raw value, [EnumType.__call__].  The first
    member defined with that value is returned; without one, [ValueError]
    "v is not a valid qualname" is raised ([_missing_] is not overridden
    by any class of this module). *)
Definition from_value (A : Type) `{IntEnum A} (v : Z) : result A :=
  match find (fun m => value m =? v) members with
  | Some m => Return m
  | None => Raise (ValueError (not_a_valid v qualname))
  end.

Inductive DotCharacteristic : Type :=
| SERVICE
| LED_COMMAND  (* Used to set the color/pattern of the Dot device *)
| STATUS.      (* Reports back status of Dot. *)

#[export] Instance DotCharacteristic_IntEnum : IntEnum DotCharacteristic := {
  qualname := lit "DotCharacteristic";
  members := [SERVICE; LED_COMMAND; STATUS];
  name m := match m with
            | SERVICE => lit "SERVICE"
            | LED_COMMAND => lit "LED_COMMAND"
            | STATUS => lit "STATUS"
            end;
  value m := match m with
             | SERVICE => 0x1234
             | LED_COMMAND => 0x1235
             | STATUS => 0x1236
             end
}.

Inductive LuxaforLED : Type :=
| LEFT
| RIGHT
| ALL.

#[export] Instance LuxaforLED_IntEnum : IntEnum LuxaforLED := {
  qualname := lit "LuxaforLED";
  members := [LEFT; RIGHT; ALL];
  name m := match m with
            | LEFT => lit "LEFT"
            | RIGHT => lit "RIGHT"
            | ALL => lit "ALL"
            end;
  value m := match m with
             | LEFT => 1
             | RIGHT => 2
             | ALL => 255
             end
}.

Inductive LuxaforCommand : Type :=
| COLOR
| FADE
| STROBE
| WAVE
| PATTERN.

#[export] Instance LuxaforCommand_IntEnum : IntEnum LuxaforCommand := {
  qualname := lit "LuxaforCommand";
  members := [COLOR; FADE; STROBE; WAVE; PATTERN];
  name m := match m with
            | COLOR => lit "COLOR"
            | FADE => lit "FADE"
            | STROBE => lit "STROBE"
            | WAVE => lit "WAVE"
            | PATTERN => lit "PATTERN"
            end;
  value m := match m with
             | COLOR => 0xA1
             | FADE => 0xA2
             | STROBE => 0xA3
             | WAVE => 0xA4
             | PATTERN => 0xA6
             end
}.

Inductive LuxaforWavePattern : Type :=
| PATTERN_1
| PATTERN_2
| PATTERN_3
| PATTERN_4
| PATTERN_5.

#[export] Instance LuxaforWavePattern_IntEnum : IntEnum LuxaforWavePattern := {
  qualname := lit "LuxaforWavePattern";
  members := [PATTERN_1; PATTERN_2; PATTERN_3; PATTERN_4; PATTERN_5];
  name m := match m with
            | PATTERN_1 => lit "PATTERN_1"
            | PATTERN_2 => lit "PATTERN_2"
            | PATTERN_3 => lit "PATTERN_3"
            | PATTERN_4 => lit "PATTERN_4"
            | PATTERN_5 => lit "PATTERN_5"
            end;
  value m := match m with
             | PATTERN_1 => 1
             | PATTERN_2 => 2
             | PATTERN_3 => 3
             | PATTERN_4 => 4
             | PATTERN_5 => 5
             end
}.

Inductive LuxaforPattern : Type :=
| PATTERN_POLICE
| PATTERN_RAINBOW
| PATTERN_STOPLIGHT
| PATTERN_RANDOM1
| PATTERN_RANDOM2
| PATTERN_RANDOM3
| PATTERN_RANDOM4
| PATTERN_RANDOM5.

#[export] Instance LuxaforPattern_IntEnum : IntEnum LuxaforPattern := {
  qualname := lit "LuxaforPattern";
  members := [PATTERN_POLICE; PATTERN_RAINBOW; PATTERN_STOPLIGHT;
              PATTERN_RANDOM1; PATTERN_RANDOM2; PATTERN_RANDOM3;
              PATTERN_RANDOM4; PATTERN_RANDOM5];
  name m := match m with
            | PATTERN_POLICE => lit "PATTERN_POLICE"
            | PATTERN_RAINBOW => lit "PATTERN_RAINBOW"
            | PATTERN_STOPLIGHT => lit "PATTERN_STOPLIGHT"
            | PATTERN_RANDOM1 => lit "PATTERN_RANDOM1"
            | PATTERN_RANDOM2 => lit "PATTERN_RANDOM2"
            | PATTERN_RANDOM3 => lit "PATTERN_RANDOM3"
            | PATTERN_RANDOM4 => lit "PATTERN_RANDOM4"
            | PATTERN_RANDOM5 => lit "PATTERN_RANDOM5"
            end;
  value m := match m with
             | PATTERN_POLICE => 5
             | PATTERN_RAINBOW => 8
             | PATTERN_STOPLIGHT => 1
             | PATTERN_RANDOM1 => 2
             | PATTERN_RANDOM2 => 3
             | PATTERN_RANDOM3 => 4
             | PATTERN_RANDOM4 => 6
             | PATTERN_RANDOM5 => 7
             end
}.

Inductive PushEvent : Type :=
| MALFORMED  (* Sent any time the device does not understand. *)
| OKAY       (* Sent when the command is accepted. *)
| WAKEUP     (* Sent when the device is asleep (flashing red) and wakes up. *)
| HELLO.     (* Sent when the device is about to go to sleep, approx every 30 sec. *)

#[export] Instance PushEvent_IntEnum : IntEnum PushEvent := {
  qualname := lit "PushEvent";
  members := [MALFORMED; OKAY; WAKEUP; HELLO];
  name m := match m with
            | MALFORMED => lit "MALFORMED"
            | OKAY => lit "OKAY"
            | WAKEUP => lit "WAKEUP"
            | HELLO => lit "HELLO"
            end;
  value m := match m with
             | MALFORMED => 0x30
             | OKAY => 0x31
             | WAKEUP => 0x32
             | HELLO => 0x33
             end
}.

Definition DotCharacteristic_eqb (a b : DotCharacteristic) : bool :=
  match a, b with
  | SERVICE, SERVICE | LED_COMMAND, LED_COMMAND | STATUS, STATUS => true
  | _, _ => false
  end.

(** ** str methods used on the way to a UUID *)

Definition ch (a : ascii) : char := N_of_ascii a.

Fixpoint startswith (prefix s : str) : bool :=
  match prefix, s with
  | [], _ => true
  | p :: prefix', c :: s' => (c =? p)%N && startswith prefix' s'
  | _ :: _, [] => false
  end.

(** [s[a:b]] for [0 <= a <= b]; like Python's slice it clips at the end of
    [s] and never raises. *)
Definition slice (a b : nat) (s : str) : str := firstn (b - a) (skipn a s).

(** [s.replace(old, new)] for a non-empty [old]: occurrences are replaced
    left to right, without overlap.  [skip] counts the characters of the
    occurrence being replaced that are still to be passed over. *)
Fixpoint replace_from (old new : str) (skip : nat) (s : str) : str :=
  match s with
  | [] => []
  | c :: s' =>
      match skip with
      | S k => replace_from old new k s'
      | O => if startswith old s
             then new ++ replace_from old new (length old - 1) s'
             else c :: replace_from old new 0 s'
      end
  end.

Definition replace (old new s : str) : str := replace_from old new 0 s.

Definition char_in (chars : str) (c : char) : bool :=
  existsb (fun x => (x =? c)%N) chars.

Fixpoint lstrip (chars s : str) : str :=
  match s with
  | c :: s' => if char_in chars c then lstrip chars s' else s
  | [] => []
  end.

(** [s.strip(chars)] *)
Definition strip (chars s : str) : str :=
  rev (lstrip chars (rev (lstrip chars s))).

(** ** Integer formatting: [format(v, spec)] for the type codes x and X *)

Definition hex_digit (upper : bool) (d : N) : char :=
  (if d <? 10 then 48 + d else (if upper then 55 else 87) + d)%N.

Fixpoint hex_digits_from (fuel : nat) (upper : bool) (n : N) (acc : str) : str :=
  match fuel with
  | O => acc
  | S fuel' =>
      let acc' := hex_digit upper (N.land n 15) :: acc in
      if (N.shiftr n 4 =? 0)%N then acc'
      else hex_digits_from fuel' upper (N.shiftr n 4) acc'
  end.

(** The hexadecimal digits of [n], most significant first, "0" for zero:
    one digit for each group of four bits.  A number has no more
    hexadecimal digits than it has bits. *)
Definition hex_digits (upper : bool) (n : N) : str :=
  hex_digits_from (S (N.to_nat (N.log2 n))) upper n [].

(** The fragment [[[fill]align][width][type]] of the format specification
    mini-language, with type x or X. *)
Inductive alignment : Type := AlignLeft | AlignRight | AlignCenter | AlignSign.

Record format_spec : Type := {
  fill : char;
  align : alignment;
  width : nat;
  upper : bool
}.

Definition pad (fillc : char) (n : nat) : str := repeat fillc n.

Definition format_int (v : Z) (f : format_spec) : str :=
  let sign := if v <? 0 then [ch "-"] else [] in
  let digits := hex_digits (upper f) (Z.to_N (Z.abs v)) in
  let missing := (width f - length (sign ++ digits))%nat in
  match align f with
  | AlignRight => pad (fill f) missing ++ sign ++ digits
  | AlignLeft => sign ++ digits ++ pad (fill f) missing
  | AlignSign => sign ++ pad (fill f) missing ++ digits
  | AlignCenter =>
      pad (fill f) (missing / 2) ++ sign ++ digits
        ++ pad (fill f) (missing - missing / 2)
  end.

Definition alignment_of (c : char) : option alignment :=
  if (c =? ch "<")%N then Some AlignLeft
  else if (c =? ch ">")%N then Some AlignRight
  else if (c =? ch "^")%N then Some AlignCenter
  else if (c =? ch "=")%N then Some AlignSign
  else None.

Definition is_digit (c : char) : bool := ((48 <=? c) && (c <=? 57))%N.

Fixpoint decimal (acc : nat) (s : str) : nat * str :=
  match s with
  | c :: s' =>
      if is_digit c then decimal (10 * acc + N.to_nat (c - 48)) s'
      else (acc, s)
  | [] => (acc, [])
  end.

(** The width and the type code.  A width written with a leading 0 asks
    for sign-aware zero padding, which is outside the fragment. *)
Definition parse_type (fillc : char) (a : alignment) (s : str)
  : option format_spec :=
  let '(w, s') := decimal 0 s in
  match (if startswith [ch "0"] s then [] else s') with
  | [c] =>
      if (c =? ch "x")%N
      then Some {| fill := fillc; align := a; width := w; upper := false |}
      else if (c =? ch "X")%N
      then Some {| fill := fillc; align := a; width := w; upper := true |}
      else None
  | _ => None
  end.

(** A specification begins with [fill align] when its second character is
    an alignment, with [align] alone when its first is, and otherwise
    numbers are right-aligned and padded with spaces. *)
Definition parse_format_spec (s : str) : option format_spec :=
  match s with
  | f :: a :: s' =>
      match alignment_of a with
      | Some al => parse_type f al s'
      | None =>
          match alignment_of f with
          | Some al => parse_type (ch " ") al (a :: s')
          | None => parse_type (ch " ") AlignRight s
          end
      end
  | [a] =>
      match alignment_of a with
      | Some al => parse_type (ch " ") al []
      | None => parse_type (ch " ") AlignRight s
      end
  | [] => None
  end.

(** ** str.format *)

Inductive piece : Type :=
| Text (c : char)
| Field (spec : format_spec).   (* an automatically numbered field {:spec} *)

Inductive scan_state : Type :=
| Outside
| AfterOpen               (* a left brace was read *)
| InField (acc : str)     (* inside a field; [acc] is its text, reversed *)
| AfterClose.             (* a right brace was read outside a field *)

Definition parse_field (text : str) : option piece :=
  match text with
  | c :: spec =>
      if (c =? ch ":")%N
      then option_map Field (parse_format_spec spec)
      else None
  | [] => None
  end.

Definition cons_piece (p : option piece) (ps : option (list piece))
  : option (list piece) :=
  match p, ps with
  | Some p, Some ps => Some (p :: ps)
  | _, _ => None
  end.

(** The template is split into literal characters and replacement fields;
    doubled braces stand for a brace. *)
Fixpoint scan (st : scan_state) (s : str) : option (list piece) :=
  match s with
  | [] => match st with Outside => Some [] | _ => None end
  | c :: s' =>
      match st with
      | Outside =>
          if (c =? ch "{")%N then scan AfterOpen s'
          else if (c =? ch "}")%N then scan AfterClose s'
          else cons_piece (Some (Text c)) (scan Outside s')
      | AfterOpen =>
          if (c =? ch "{")%N then cons_piece (Some (Text c)) (scan Outside s')
          else if (c =? ch "}")%N then None
          else scan (InField [c]) s'
      | InField acc =>
          if (c =? ch "}")%N
          then cons_piece (parse_field (rev acc)) (scan Outside s')
          else scan (InField (c :: acc)) s'
      | AfterClose =>
          if (c =? ch "}")%N then cons_piece (Some (Text c)) (scan Outside s')
          else None
      end
  end.

Fixpoint render (ps : list piece) (args : list Z) : result str :=
  match ps with
  | [] => Return []
  | Text c :: ps' => s <- render ps' args ;; Return (c :: s)
  | Field f :: ps' =>
      match args with
      | v :: args' => s <- render ps' args' ;; Return (format_int v f ++ s)
      | [] => Raise IndexError
      end
  end.

(** [template.format( *args )] with integer arguments.  A template outside
    the modelled fragment is reported as [invalid_format_string]. *)
Definition str_format (template : str) (args : list Z) : result str :=
  match scan Outside template with
  | Some ps => render ps args
  | None => Raise (ValueError invalid_format_string)
  end.

(** ** uuid.UUID *)

Definition hex_value (c : char) : option N :=
  (if (48 <=? c) && (c <=? 57) then Some (c - 48)
   else if (97 <=? c) && (c <=? 102) then Some (c - 87)
   else if (65 <=? c) && (c <=? 70) then Some (c - 55)
   else None)%N.

Fixpoint int16_from (acc : N) (s : str) : option N :=
  match s with
  | [] => Some acc
  | c :: s' =>
      match hex_value c with
      | Some d => int16_from (16 * acc + d)%N s'
      | None => None
      end
  end.

(** [int(s, 16)] on a non-empty run of hexadecimal digits.  Python also
    reads a sign, a 0x prefix, underscores and surrounding blanks; those
    forms are not modelled and are reported as an invalid literal. *)
Definition int16 (s : str) : result Z :=
  match s with
  | [] => Raise (ValueError (invalid_literal_for_int s))
  | _ :: _ =>
      match int16_from 0 s with
      | Some n => Return (Z.of_N n)
      | None => Raise (ValueError (invalid_literal_for_int s))
      end
  end.

(** A UUID object holds its 128-bit integer. *)
Record UUID : Type := { int : Z }.

(** [UUID(hex)], the constructor called with a string. *)
Definition UUID_init (hex : str) : result UUID :=
  let hex := replace (lit "uuid:") [] (replace (lit "urn:") [] hex) in
  let hex := replace (lit "-") [] (strip (lit "{}") hex) in
  if negb (length hex =? 32)%nat
  then Raise (ValueError badly_formed_hexadecimal_UUID_string)
  else
    i <- int16 hex ;;
    if negb ((0 <=? i) && (i <? 2 ^ 128))
    then Raise (ValueError int_is_out_of_range)
    else Return {| int := i |}.

(** [str(u)]: '%032x' % u.int, cut 8-4-4-4-12 and joined by hyphens. *)
Definition UUID_str (u : UUID) : str :=
  let hex :=
    format_int (int u)
      {| fill := ch "0"; align := AlignSign; width := 32; upper := false |} in
  slice 0 8 hex ++ ch "-" :: slice 8 12 hex ++ ch "-" :: slice 12 16 hex
    ++ ch "-" :: slice 16 20 hex ++ ch "-" :: skipn 20 hex.

(** ** DotCharacteristic.uuid *)

(** The body of the property: UUID(UUID_TEMPLATE.format(self.value)). *)
Definition uuid_body (self : DotCharacteristic) : result UUID :=
  s <- str_format UUID_TEMPLATE [value self] ;;
  UUID_init s.

(** [cached_property] keeps the computed value in the member's own
    [__dict__] under the attribute name.  The store gives, for each member,
    the entry "uuid" of its [__dict__] when there is one. *)
Definition instance_dicts : Type := DotCharacteristic -> option UUID.

Definition no_cache : instance_dicts := fun _ => None.

Definition store (d : instance_dicts) (self : DotCharacteristic) (val : UUID)
  : instance_dicts :=
  fun m => if DotCharacteristic_eqb m self then Some val else d m.

(** [self.uuid]: the cached value when there is one; otherwise the body
    runs and its value is stored.  A raise leaves the store as it was. *)
Definition uuid (self : DotCharacteristic) (d : instance_dicts)
  : result UUID * instance_dicts :=
  match d self with
  | Some val => (Return val, d)
  | None =>
      match uuid_body self with
      | Return val => (Return val, store d self val)
      | Raise e => (Raise e, d)
      end
  end.

(** [DotCharacteristic.__str__]: str(self.uuid). *)
Definition DotCharacteristic_str (self : DotCharacteristic) (d : instance_dicts)
  : result str * instance_dicts :=
  let '(r, d') := uuid self d in
  (u <- r ;; Return (UUID_str u), d').

(** A sequence of reads of the property, threading the store. *)
Fixpoint uuid_reads (ms : list DotCharacteristic) (d : instance_dicts)
  : list (result UUID) * instance_dicts :=
  match ms with
  | [] => ([], d)
  | m :: ms' =>
      let '(r, d') := uuid m d in
      let '(rs, d'') := uuid_reads ms' d' in
      (r :: rs, d'')
  end.

(** ** re: compiled patterns and matching *)

Inductive regex : Type :=
| Bol                                   (* ^ *)
| Eol                                   (* $ *)
| Lit (c : char)
| Class (ranges : list (char * char))   (* [a-b...] *)
| Seq (r1 r2 : regex)
| Repeat (n : nat) (r : regex)          (* r{n} *)
| Group (r : regex).                    (* (r) *)

Definition in_ranges (ranges : list (char * char)) (c : char) : bool :=
  existsb (fun '(lo, hi) => (lo <=? c) && (c <=? hi))%N ranges.

(** A position in the subject: the index reached and what is left. *)
Definition position : Type := nat * str.

(** Where [$] matches without the MULTILINE flag: at the end of the string
    and just before a newline that ends the string. *)
Definition at_end (rest : str) : bool :=
  match rest with
  | [] => true
  | [c] => (c =? 10)%N
  | _ :: _ :: _ => false
  end.

(** The positions at which a match of [r] started at [p] can end, in the
    order the backtracking matcher tries them.  Without the MULTILINE flag
    [^] matches at the start of the string only. *)
Fixpoint run (r : regex) (p : position) : list position :=
  match r with
  | Bol => if (fst p =? 0)%nat then [p] else []
  | Eol => if at_end (snd p) then [p] else []
  | Lit c =>
      match snd p with
      | c' :: s' => if (c' =? c)%N then [(S (fst p), s')] else []
      | [] => []
      end
  | Class ranges =>
      match snd p with
      | c' :: s' => if in_ranges ranges c' then [(S (fst p), s')] else []
      | [] => []
      end
  | Seq r1 r2 => flat_map (run r2) (run r1 p)
  | Repeat n r1 => Nat.iter n (flat_map (run r1)) [p]
  | Group r1 => run r1 p
  end.

(** [pattern.match(string)]: a match starting at index 0; the end of the
    match found, or [None]. *)
Definition Pattern_match (pattern : regex) (string : str) : option nat :=
  match run pattern (0%nat, string) with
  | p :: _ => Some (fst p)
  | [] => None
  end.

(** [pattern.fullmatch(string)]: a match of the whole string. *)
Definition Pattern_fullmatch (pattern : regex) (string : str) : option nat :=
  match filter (fun p => match snd p with [] => true | _ => false end)
               (run pattern (0%nat, string)) with
  | p :: _ => Some (fst p)
  | [] => None
  end.

Fixpoint search_from (pattern : regex) (i : nat) (s : str) : option (nat * nat) :=
  match run pattern (i, s) with
  | p :: _ => Some (i, fst p)
  | [] =>
      match s with
      | _ :: s' => search_from pattern (S i) s'
      | [] => None
      end
  end.

(** [pattern.search(string)]: the leftmost match, as its span. *)
Definition Pattern_search (pattern : regex) (string : str) : option (nat * nat) :=
  search_from pattern 0 string.

Definition hex_class : regex :=
  Class [(ch "0", ch "9"); (ch "A", ch "F"); (ch "a", ch "f")].

(* re.compile(r"^([0-9A-Fa-f]{2}:){5}([0-9A-Fa-f]{2})$") *)
Definition MAC_ADDRESS_REGEX : regex :=
  Seq Bol
    (Seq (Repeat 5 (Group (Seq (Repeat 2 hex_class) (Lit (ch ":")))))
       (Seq (Group (Repeat 2 hex_class))
          Eol)).

(** ** Validation of device names and addresses *)

(** Modelled from the spec: [isSupportedDeviceName] is not in const.py,
    which only holds the table [LUXAFOR_BLUETOOTH_NAMES] and the remark
    that the first 7 characters are checked.  The first 7 characters of the
    name (all of it when it is shorter) are compared with each entry of the
    table, and the answer is true when some entry is a prefix of them. *)
Definition isSupportedDeviceName (name : str) : result bool :=
  Return (existsb (fun entry => startswith entry (slice 0 7 name))
            LUXAFOR_BLUETOOTH_NAMES).

(** Modelled from the spec: [isValidMacAddress] is not in const.py, which
    only holds the compiled pattern.  The whole address must conform to
    [MAC_ADDRESS_REGEX], with no character before or after and no partial
    match: the pattern's [fullmatch] method, and the answer is whether
    there is a match. *)
Definition isValidMacAddress (address : str) : result bool :=
  Return (match Pattern_fullmatch MAC_ADDRESS_REGEX address with
          | Some _ => true
          | None => false
          end).

(** ** What the specification says, for comparison *)

(** A 16-bit code as four lowercase hexadecimal digits, zero-padded. *)
Definition hex4 (v : Z) : str :=
  map (fun k => hex_digit false (Z.to_N ((v / 16 ^ k) mod 16))) [3; 2; 1; 0].

(** The vendor base UUID with [field] in the place of the short code. *)
Definition vendor_uuid (field : str) : str :=
  lit "0000" ++ field ++ lit "-0000-1000-8000-00805f9b34fb".

Definition lower_hex_class : regex := Class [(ch "0", ch "9"); (ch "a", ch "f")].

(** The canonical textual form of a UUID: lowercase hexadecimal digits in
    groups of 8, 4, 4, 4 and 12, joined by hyphens. *)
Definition canonical_uuid_regex : regex :=
  Seq (Repeat 8 lower_hex_class) (Seq (Lit (ch "-"))
  (Seq (Repeat 4 lower_hex_class) (Seq (Lit (ch "-"))
  (Seq (Repeat 4 lower_hex_class) (Seq (Lit (ch "-"))
  (Seq (Repeat 4 lower_hex_class) (Seq (Lit (ch "-"))
  (Repeat 12 lower_hex_class)))))))).

Definition is_canonical_uuid (s : str) : bool :=
  match Pattern_fullmatch canonical_uuid_regex s with
  | Some _ => true
  | None => false
  end.

Definition is_hex (c : char) : bool :=
  in_ranges [(ch "0", ch "9"); (ch "A", ch "F"); (ch "a", ch "f")] c.

(** Two hexadecimal digits, upper or lower case. *)
Definition hex_pair (g : str) : Prop :=
  exists a b, g = [a; b] /\ is_hex a = true /\ is_hex b = true.

Fixpoint join (sep : char) (groups : list str) : str :=
  match groups with
  | [] => []
  | [g] => g
  | g :: groups' => g ++ sep :: join sep groups'
  end.

(** Exactly six groups of two hexadecimal digits separated by colons. *)
Definition six_hex_pairs (s : str) : Prop :=
  exists groups,
    length groups = 6%nat /\ Forall hex_pair groups /\ s = join (ch ":") groups.

(** The same as a test on the 17 characters. *)
Definition six_hex_pairsb (s : str) : bool :=
  match s with
  | [a1; a2; c1; b1; b2; c2; d1; d2; c3; e1; e2; c4; f1; f2; c5; g1; g2] =>
      forallb is_hex [a1; a2; b1; b2; d1; d2; e1; e2; f1; f2; g1; g2]
      && forallb (fun c => (c =? ch ":")%N) [c1; c2; c3; c4; c5]
  | _ => false
  end.

(** [[(m.name, m.value) for m in cls]] *)
Definition items (A : Type) `{IntEnum A} : list (str * Z) :=
  map (fun m => (name m, value m)) members.

(** Converting [v] into the class either returns the member whose value is
    [v], or [v] is the value of no member and the conversion raises the
    [ValueError] that carries [v] and the name of the class. *)
Definition conversion_is_closed (A : Type) `{IntEnum A} (v : Z) : Prop :=
  (exists m, In m members /\ value m = v /\ from_value A v = Return m)
  \/ (~ In v (map value members)
      /\ from_value A v = Raise (ValueError (not_a_valid v qualname))).

(** No two members share a value, [members] lists every member, and a
    member's value converts back to that member. *)
Definition decodes_unambiguously (A : Type) `{IntEnum A} : Prop :=
  NoDup (map value members)
  /\ (forall m : A, In m members)
  /\ (forall m : A, from_value A (value m) = Return m).

(** The cached values are the values the body of the property returns. *)
Definition consistent (d : instance_dicts) : Prop :=
  forall m u, d m = Some u -> uuid_body m = Return u.

(** The store after the reads [ms] of the property, from a module just
    loaded. *)
Definition after (ms : list DotCharacteristic) : instance_dicts :=
  snd (uuid_reads ms no_cache).

(** The template's field alone formats [v] as its four digits. *)
Definition field_is_hex4 (v : Z) : bool :=
  match str_format (lit "{:0>4x}") [v] with
  | Return field => str_eqb field (hex4 v)
  | Raise _ => false
  end.

(** [f] holds of the [count] integers from [v] on. *)
Fixpoint all_from (f : Z -> bool) (v : Z) (count : nat) : bool :=
  match count with
  | O => true
  | S count' => f v && all_from f (v + 1) count'
  end.

(** ** The derivation on any integer *)

(** UUID(UUID_TEMPLATE.format(v)): the body of the [uuid] property, on the
    integer [v] in the place of [self.value]. *)
Definition template_uuid (v : Z) : result UUID :=
  s <- str_format UUID_TEMPLATE [v] ;;
  UUID_init s.

(** A lowercase hexadecimal digit. *)
Definition is_lower_hex (c : char) : bool :=
  in_ranges [(ch "0", ch "9"); (ch "a", ch "f")] c.

(** 32 digits cut 8-4-4-4-12 and joined by hyphens, as [UUID_str] cuts the
    digits of the integer. *)
Definition hyphenated (hex : str) : str :=
  slice 0 8 hex ++ ch "-" :: slice 8 12 hex ++ ch "-" :: slice 12 16 hex
    ++ ch "-" :: slice 16 20 hex ++ ch "-" :: skipn 20 hex.

(** The integer of the template with the field 0000: the Bluetooth base
    UUID 00000000-0000-1000-8000-00805f9b34fb. *)
Definition base_uuid_int : Z := 0x00000000000010008000_00805f9b34fb.

(** * Properties *)

(** ** Enumerations *)

Section IntEnumFacts.
Context {A : Type} `{E : IntEnum A}.

Lemma from_value_Return (v : Z) (m : A) :
  from_value A v = Return m -> In m members /\ value m = v.
Proof.
  unfold from_value.
  destruct (find _ members) as [m'|] eqn:Hfind; [|discriminate].
  intros [= <-].
  apply find_some in Hfind as [Hin Hv].
  split; [assumption | now apply Z.eqb_eq].
Qed.

Lemma from_value_Raise (v : Z) (e : exn) :
  from_value A v = Raise e ->
  e = ValueError (not_a_valid v qualname) /\ ~ In v (map value members).
Proof.
  unfold from_value.
  destruct (find _ members) as [m'|] eqn:Hfind; [discriminate|].
  intros [= <-]. split; [reflexivity|].
  intros Hin. apply in_map_iff in Hin as (m & Hv & Hm).
  apply (find_none _ _ Hfind) in Hm.
  apply Z.eqb_neq in Hm. contradiction.
Qed.

Lemma from_value_closed (v : Z) : conversion_is_closed A v.
Proof.
  unfold conversion_is_closed.
  destruct (from_value A v) as [m|e] eqn:Hcall.
  - left. exists m. apply from_value_Return in Hcall as [Hin Hv]. auto.
  - right. apply from_value_Raise in Hcall as [-> Hout]. auto.
Qed.

Lemma value_injective_on_members (l : list A) (a b : A) :
  NoDup (map value l) -> In a l -> In b l -> value a = value b -> a = b.
Proof.
  induction l as [|x l IH]; simpl; [contradiction|].
  intros Hnd Ha Hb Hv. inversion Hnd as [|? ? Hx Hnd']; subst.
  destruct Ha as [->|Ha], Hb as [->|Hb]; auto.
  - exfalso. apply Hx. rewrite Hv. now apply in_map.
  - exfalso. apply Hx. rewrite <- Hv. now apply in_map.
Qed.

Lemma from_value_value (m : A) :
  NoDup (map value members) -> In m members ->
  from_value A (value m) = Return m.
Proof.
  intros Hnd Hin.
  destruct (from_value_closed (value m)) as [(m' & Hin' & Hv & ->)|[Hout _]].
  - f_equal. now apply (value_injective_on_members members).
  - exfalso. apply Hout. now apply in_map.
Qed.

Lemma decodes_unambiguously_intro :
  NoDup (map value members) -> (forall m : A, In m members) ->
  decodes_unambiguously A.
Proof.
  intros Hnd Hall. repeat split; auto.
  intros m. now apply from_value_value.
Qed.
End IntEnumFacts.

Ltac distinct_values :=
  repeat (constructor; [simpl; intuition discriminate|]); constructor.

Ltac every_member :=
  let m := fresh "m" in intros m; destruct m; simpl; tauto.

Ltac enum_decodes :=
  apply decodes_unambiguously_intro; [distinct_values | every_member].

(** C4: for every raw integer, conversion into LuxaforCommand, LuxaforLED,
    LuxaforWavePattern, LuxaforPattern or PushEvent returns the member with
    that value when there is one, and otherwise raises the error that
    carries the rejected value and the name of the enumeration; no default
    is substituted.  PushEvent(0x34) raises and PushEvent(0x31) is OKAY. *)
Theorem conversion_rejects_values_outside_the_enumeration :
  forall v : Z,
    conversion_is_closed LuxaforCommand v
    /\ conversion_is_closed LuxaforLED v
    /\ conversion_is_closed LuxaforWavePattern v
    /\ conversion_is_closed LuxaforPattern v
    /\ conversion_is_closed PushEvent v
    /\ from_value PushEvent 0x34
       = Raise (ValueError (not_a_valid 0x34 (lit "PushEvent")))
    /\ from_value PushEvent 0x31 = Return OKAY.
Proof.
  intros v. repeat split; try apply from_value_closed; reflexivity.
Qed.

(** C5: the pattern names carry the device's codes: RAINBOW is 8, STOPLIGHT
    is 1, POLICE is 5, RANDOM1 to RANDOM5 are 2, 3, 4, 6, 7 in this order,
    and RAINBOW differs from STOPLIGHT. *)
Theorem pattern_codes_are_the_device_table :
  value PATTERN_RAINBOW = 8
  /\ value PATTERN_STOPLIGHT = 1
  /\ value PATTERN_POLICE = 5
  /\ map value [PATTERN_RANDOM1; PATTERN_RANDOM2; PATTERN_RANDOM3;
                PATTERN_RANDOM4; PATTERN_RANDOM5] = [2; 3; 4; 6; 7]
  /\ value PATTERN_RAINBOW <> value PATTERN_STOPLIGHT
  /\ (forall m : LuxaforPattern, In m members /\ 1 <= value m <= 8).
Proof.
  repeat split; try reflexivity; try discriminate;
    destruct m; simpl; try tauto; try lia.
Qed.

(** C7: the members of LuxaforCommand, LuxaforLED, LuxaforWavePattern and
    PushEvent are exactly those of the tables, with their values, and the
    placeholder byte is 0x00. *)
Theorem vocabulary_equals_the_tables :
  items LuxaforCommand
  = [(lit "COLOR", 0xA1); (lit "FADE", 0xA2); (lit "STROBE", 0xA3);
     (lit "WAVE", 0xA4); (lit "PATTERN", 0xA6)]
  /\ (forall m : LuxaforCommand, In m members)
  /\ items LuxaforLED = [(lit "LEFT", 1); (lit "RIGHT", 2); (lit "ALL", 255)]
  /\ (forall m : LuxaforLED, In m members)
  /\ map value (@members LuxaforWavePattern _) = [1; 2; 3; 4; 5]
  /\ (forall m : LuxaforWavePattern, In m members)
  /\ items PushEvent
     = [(lit "MALFORMED", 0x30); (lit "OKAY", 0x31); (lit "WAKEUP", 0x32);
        (lit "HELLO", 0x33)]
  /\ (forall m : PushEvent, In m members)
  /\ LUXAFOR_DONT_CARE = 0x00.
Proof.
  repeat split; try reflexivity; every_member.
Qed.

(** C10: in each of the six enumerations the members have pairwise
    distinct values, so a member's value converts back to that member and
    to no other. *)
Theorem member_values_are_pairwise_distinct :
  decodes_unambiguously DotCharacteristic
  /\ decodes_unambiguously LuxaforLED
  /\ decodes_unambiguously LuxaforCommand
  /\ decodes_unambiguously LuxaforWavePattern
  /\ decodes_unambiguously LuxaforPattern
  /\ decodes_unambiguously PushEvent.
Proof.
  repeat apply conj; enum_decodes.
Qed.

(** ** The cache of the uuid property *)

Lemma DotCharacteristic_eqb_eq (a b : DotCharacteristic) :
  DotCharacteristic_eqb a b = true <-> a = b.
Proof. destruct a, b; simpl; split; congruence. Qed.

Lemma store_same (d : instance_dicts) (m : DotCharacteristic) (u : UUID) :
  store d m u m = Some u.
Proof.
  unfold store.
  now rewrite (proj2 (DotCharacteristic_eqb_eq m m) eq_refl).
Qed.

Lemma store_other (d : instance_dicts) (m m' : DotCharacteristic) (u : UUID) :
  m' <> m -> store d m u m' = d m'.
Proof.
  intros Hne. unfold store.
  destruct (DotCharacteristic_eqb m' m) eqn:Heq; [|reflexivity].
  apply DotCharacteristic_eqb_eq in Heq. contradiction.
Qed.

Lemma uuid_body_returns (m : DotCharacteristic) :
  exists u, uuid_body m = Return u.
Proof. destruct m; vm_compute; eauto. Qed.

Lemma consistent_no_cache : consistent no_cache.
Proof. intros m u. discriminate. Qed.

Lemma uuid_result (d : instance_dicts) (m : DotCharacteristic) :
  consistent d -> fst (uuid m d) = uuid_body m.
Proof.
  intros Hd. unfold uuid.
  destruct (d m) as [u|] eqn:Hm.
  - simpl. symmetry. now apply Hd.
  - now destruct (uuid_body m).
Qed.

Lemma uuid_consistent (d : instance_dicts) (m : DotCharacteristic) :
  consistent d -> consistent (snd (uuid m d)).
Proof.
  intros Hd. unfold uuid.
  destruct (d m) as [u|] eqn:Hm; [exact Hd|].
  destruct (uuid_body m) as [u|e] eqn:Hbody; [|exact Hd].
  intros m' u'. simpl. unfold store.
  destruct (DotCharacteristic_eqb m' m) eqn:Heq.
  - apply DotCharacteristic_eqb_eq in Heq as ->. now intros [= <-].
  - apply Hd.
Qed.

Lemma uuid_reads_consistent (ms : list DotCharacteristic) (d : instance_dicts) :
  consistent d ->
  fst (uuid_reads ms d) = map uuid_body ms /\ consistent (snd (uuid_reads ms d)).
Proof.
  revert d. induction ms as [|m ms IH]; intros d Hd; simpl; [auto|].
  pose proof (uuid_result d m Hd) as Hr.
  pose proof (uuid_consistent d m Hd) as Hc.
  destruct (uuid m d) as [r d']. simpl in Hr, Hc.
  destruct (IH d' Hc) as [Hrs Hcs].
  destruct (uuid_reads ms d') as [rs d'']. simpl in *.
  split; [congruence | assumption].
Qed.

Lemma after_consistent (ms : list DotCharacteristic) : consistent (after ms).
Proof. apply uuid_reads_consistent, consistent_no_cache. Qed.

Lemma uuid_cached (d : instance_dicts) (m : DotCharacteristic) :
  exists u, snd (uuid m d) m = Some u.
Proof.
  unfold uuid. destruct (d m) as [u|] eqn:Hm; [eauto|].
  destruct (uuid_body_returns m) as [u ->]. simpl.
  exists u. apply store_same.
Qed.

Lemma uuid_other_entries (d : instance_dicts) (m m' : DotCharacteristic) :
  m' <> m -> snd (uuid m d) m' = d m'.
Proof.
  intros Hne. unfold uuid. destruct (d m); [reflexivity|].
  destruct (uuid_body m); [|reflexivity].
  now apply store_other.
Qed.

Lemma uuid_again (d : instance_dicts) (m : DotCharacteristic) :
  uuid m (snd (uuid m d)) = (fst (uuid m d), snd (uuid m d)).
Proof.
  destruct (uuid_cached d m) as [u Hu].
  unfold uuid at 1. rewrite Hu. f_equal.
  revert Hu. unfold uuid. destruct (d m) as [u'|] eqn:Hm.
  - simpl. congruence.
  - destruct (uuid_body m) as [u'|e]; simpl.
    + rewrite store_same. congruence.
    + congruence.
Qed.

Lemma DotCharacteristic_str_result (d : instance_dicts) (m : DotCharacteristic) :
  fst (DotCharacteristic_str m d) = (u <- fst (uuid m d) ;; Return (UUID_str u)).
Proof. unfold DotCharacteristic_str. now destruct (uuid m d). Qed.

(** ** DotCharacteristic.uuid *)

(** C1: whatever was read before, the uuid of each of the three members is
    the vendor template with the member's value in the place of the field,
    as four zero-padded lowercase hexadecimal digits; it prints in the
    canonical lowercase hyphenated form, as 00001234-..., 00001235-... and
    00001236-... for SERVICE, LED_COMMAND and STATUS. *)
Theorem uuid_is_the_template_with_the_short_code :
  forall (ms : list DotCharacteristic) (m : DotCharacteristic),
    exists u,
      fst (uuid m (after ms)) = Return u
      /\ fst (DotCharacteristic_str m (after ms)) = Return (UUID_str u)
      /\ str_format UUID_TEMPLATE [value m] = Return (vendor_uuid (hex4 (value m)))
      /\ UUID_str u = vendor_uuid (hex4 (value m))
      /\ length (hex4 (value m)) = 4%nat
      /\ is_canonical_uuid (UUID_str u) = true
      /\ UUID_str u
         = match m with
           | SERVICE => lit "00001234-0000-1000-8000-00805f9b34fb"
           | LED_COMMAND => lit "00001235-0000-1000-8000-00805f9b34fb"
           | STATUS => lit "00001236-0000-1000-8000-00805f9b34fb"
           end.
Proof.
  intros ms m.
  rewrite DotCharacteristic_str_result.
  rewrite (uuid_result _ m (after_consistent ms)).
  destruct m; eexists; (split; [vm_compute; reflexivity|]);
    repeat split; vm_compute; reflexivity.
Qed.

(** C6: reading the property is deterministic and idempotent.  After any
    reads, a read returns the value of the body, which depends on the
    member alone; a second read returns the same value and the same text
    and leaves the store as the first left it; and a read changes nothing
    but the cache entry of the member read. *)
Theorem uuid_is_deterministic_and_idempotent :
  forall (ms : list DotCharacteristic) (m : DotCharacteristic),
    fst (uuid m (after ms)) = uuid_body m
    /\ uuid m (snd (uuid m (after ms)))
       = (fst (uuid m (after ms)), snd (uuid m (after ms)))
    /\ fst (DotCharacteristic_str m (snd (uuid m (after ms))))
       = fst (DotCharacteristic_str m (after ms))
    /\ (forall m', m' <> m -> snd (uuid m (after ms)) m' = after ms m')
    /\ fst (uuid_reads ms no_cache) = map uuid_body ms.
Proof.
  intros ms m. repeat split.
  - apply uuid_result, after_consistent.
  - apply uuid_again.
  - rewrite !DotCharacteristic_str_result, uuid_again. reflexivity.
  - intros m' Hne. now apply uuid_other_entries.
  - apply uuid_reads_consistent, consistent_no_cache.
Qed.

(** ** From a 16-bit short code to a UUID *)

Lemma str_eqb_eq (a b : str) : str_eqb a b = true -> a = b.
Proof. unfold str_eqb. now destruct (list_eq_dec N.eq_dec a b). Qed.

Lemma all_from_true (f : Z -> bool) (count : nat) :
  forall v x, all_from f v count = true ->
    v <= x < v + Z.of_nat count -> f x = true.
Proof.
  induction count as [|count IH]; intros v x Hall Hx; [lia|].
  simpl in Hall. apply andb_true_iff in Hall as [Hv Hrest].
  destruct (Z.eq_dec x v) as [->|Hne]; [assumption|].
  apply (IH (v + 1)); [assumption | lia].
Qed.

Lemma every_short_code_is_hex4 :
  all_from field_is_hex4 0 (Z.to_nat 0x10000) = true.
Proof. vm_compute. reflexivity. Qed.

(** The field of a 16-bit value is its four digits. *)
Lemma field_of_short_code (v : Z) :
  0 <= v < 0x10000 -> str_format (lit "{:0>4x}") [v] = Return (hex4 v).
Proof.
  intros Hv.
  pose proof (all_from_true _ _ 0 v every_short_code_is_hex4) as Hok.
  unfold field_is_hex4 in Hok.
  destruct (str_format _ [v]) as [field|e].
  - f_equal. apply str_eqb_eq, Hok. lia.
  - discriminate Hok. lia.
Qed.

(** The template formats as the vendor UUID around its field. *)
Lemma template_around_field (v : Z) :
  str_format UUID_TEMPLATE [v]
  = (field <- str_format (lit "{:0>4x}") [v] ;; Return (vendor_uuid field)).
Proof.
  unfold str_format.
  replace (scan Outside UUID_TEMPLATE)
    with (Some (map Text (lit "0000")
                ++ Field {| fill := ch "0"; align := AlignRight;
                            width := 4; upper := false |}
                :: map Text (lit "-0000-1000-8000-00805f9b34fb")))
    by (vm_compute; reflexivity).
  replace (scan Outside (lit "{:0>4x}"))
    with (Some [Field {| fill := ch "0"; align := AlignRight;
                         width := 4; upper := false |}])
    by (vm_compute; reflexivity).
  simpl. rewrite app_nil_r. reflexivity.
Qed.

Ltac to_prop :=
  repeat rewrite ?orb_true_iff, ?andb_true_iff, ?negb_true_iff,
    ?orb_false_iff, ?andb_false_iff, ?N.leb_le, ?N.ltb_lt, ?N.eqb_eq,
    ?N.eqb_neq, ?N.leb_gt, ?N.ltb_ge in *.

Lemma is_hex_ranges (c : char) :
  is_hex c
  = ((48 <=? c) && (c <=? 57) || (65 <=? c) && (c <=? 70)
     || (97 <=? c) && (c <=? 102))%N.
Proof.
  unfold is_hex, in_ranges, ch. simpl.
  now rewrite orb_false_r, orb_assoc.
Qed.

Lemma is_hex_cases (c : char) :
  is_hex c = true ->
  (48 <= c <= 57 \/ 65 <= c <= 70 \/ 97 <= c <= 102)%N.
Proof.
  rewrite is_hex_ranges. to_prop. lia.
Qed.

Lemma hex_digit_is_hex (d : N) : (d < 16)%N -> is_hex (hex_digit false d) = true.
Proof.
  intros Hd. rewrite is_hex_ranges. unfold hex_digit.
  destruct (d <? 10)%N eqn:Hlt; to_prop; lia.
Qed.

Lemma hex4_is_hex (v : Z) : forallb is_hex (hex4 v) = true.
Proof.
  unfold hex4. rewrite forallb_forall. intros c Hc.
  apply in_map_iff in Hc as (k & <- & _).
  apply hex_digit_is_hex.
  pose proof (Z.mod_pos_bound (v / 16 ^ k) 16 eq_refl). lia.
Qed.

Lemma forallb_impl {A} (p q : A -> bool) (l : list A) :
  (forall x, p x = true -> q x = true) ->
  forallb p l = true -> forallb q l = true.
Proof.
  intros Hpq. rewrite !forallb_forall. auto.
Qed.

Lemma filter_all {A} (p : A -> bool) (l : list A) :
  forallb p l = true -> filter p l = l.
Proof.
  induction l as [|x l IH]; simpl; [reflexivity|].
  intros H. apply andb_true_iff in H as [-> Hl]. now rewrite IH.
Qed.

(** Replacing a text whose first character does not occur changes nothing. *)
Lemma replace_absent (o : char) (old new s : str) :
  forallb (fun c => negb (c =? o)%N) s = true -> replace (o :: old) new s = s.
Proof.
  unfold replace. induction s as [|c s IH]; simpl; [reflexivity|].
  intros H. apply andb_true_iff in H as [Hc Hs].
  apply negb_true_iff in Hc. rewrite Hc. simpl. now rewrite IH.
Qed.

(** Removing a character is filtering it out. *)
Lemma replace_one_char (o : char) (s : str) :
  replace [o] [] s = filter (fun c => negb (c =? o)%N) s.
Proof.
  unfold replace. induction s as [|c s IH]; simpl; [reflexivity|].
  destruct (c =? o)%N; simpl; now rewrite IH.
Qed.

Lemma strip_between (chars : str) (c c' : char) (s : str) :
  char_in chars c = false -> char_in chars c' = false ->
  strip chars (c :: s ++ [c']) = c :: s ++ [c'].
Proof.
  intros Hc Hc'. unfold strip. simpl lstrip. rewrite Hc.
  simpl rev. rewrite rev_app_distr. simpl. rewrite Hc'.
  simpl. rewrite rev_app_distr, rev_involutive. reflexivity.
Qed.

Lemma is_hex_value (c : char) :
  is_hex c = true -> exists d, hex_value c = Some d /\ (d < 16)%N.
Proof.
  intros Hc. apply is_hex_cases in Hc. unfold hex_value.
  destruct ((48 <=? c) && (c <=? 57))%N eqn:H1;
    [eexists; split; [reflexivity|]; to_prop; lia|].
  destruct ((97 <=? c) && (c <=? 102))%N eqn:H2;
    [eexists; split; [reflexivity|]; to_prop; lia|].
  destruct ((65 <=? c) && (c <=? 70))%N eqn:H3;
    [eexists; split; [reflexivity|]; to_prop; lia|].
  to_prop. lia.
Qed.

(** A run of [k] hexadecimal digits reads as a number below [16 ^ k]. *)
Lemma int16_from_hex (s : str) :
  forallb is_hex s = true ->
  forall acc, exists n,
    int16_from acc s = Some n
    /\ (n < (acc + 1) * 16 ^ N.of_nat (length s))%N.
Proof.
  induction s as [|c s IH]; intros Hs acc; cbn [int16_from length].
  - exists acc. split; [reflexivity|].
    change (N.of_nat 0) with 0%N. rewrite N.pow_0_r. lia.
  - cbn [forallb] in Hs. apply andb_true_iff in Hs as [Hc Hs].
    destruct (is_hex_value c Hc) as (d & -> & Hd).
    destruct (IH Hs (16 * acc + d)%N) as (n & -> & Hn).
    exists n. split; [reflexivity|].
    rewrite Nat2N.inj_succ, N.pow_succ_r'.
    nia.
Qed.

Lemma int16_hex32 (s : str) :
  length s = 32%nat -> forallb is_hex s = true ->
  exists i, int16 s = Return i /\ 0 <= i < 2 ^ 128.
Proof.
  intros Hlen Hs.
  destruct (int16_from_hex s Hs 0%N) as (n & Hn & Hbound).
  rewrite Hlen in Hbound.
  exists (Z.of_N n). unfold int16. rewrite Hn.
  destruct s; [discriminate Hlen|].
  split; [reflexivity|].
  change (2 ^ 128) with (Z.of_N ((0 + 1) * 16 ^ N.of_nat 32)). lia.
Qed.

Lemma forallb_vendor_uuid (p : char -> bool) (field : str) :
  forallb p (lit "0000") = true -> forallb p field = true ->
  forallb p (lit "-0000-1000-8000-00805f9b34fb") = true ->
  forallb p (vendor_uuid field) = true.
Proof.
  intros H1 H2 H3. unfold vendor_uuid.
  now rewrite !forallb_app, H1, H2, H3.
Qed.

Lemma is_hex_differs (o c : char) :
  is_hex o = false -> is_hex c = true -> negb (c =? o)%N = true.
Proof.
  intros Ho Hc. apply negb_true_iff, N.eqb_neq. congruence.
Qed.

(** What the constructor makes of the vendor UUID around a field of
    hexadecimal digits, before it counts the digits: the prefixes and the
    braces it looks for are not there, and the four hyphens go. *)
Lemma vendor_uuid_digits (field : str) :
  forallb is_hex field = true ->
  replace (lit "-") []
    (strip (lit "{}")
       (replace (lit "uuid:") [] (replace (lit "urn:") [] (vendor_uuid field))))
  = lit "0000" ++ field ++ lit "00001000800000805f9b34fb".
Proof.
  intros Hfield.
  assert (Hu : forallb (fun c => negb (c =? 117)%N) (vendor_uuid field) = true).
  { apply forallb_vendor_uuid; try reflexivity.
    apply (forallb_impl is_hex); [|assumption].
    intros c. now apply is_hex_differs. }
  change (lit "urn:") with (117%N :: lit "rn:").
  change (lit "uuid:") with (117%N :: lit "uid:").
  rewrite (replace_absent _ _ _ (vendor_uuid field) Hu).
  rewrite (replace_absent _ _ _ (vendor_uuid field) Hu).
  replace (vendor_uuid field)
    with (48%N :: (lit "000" ++ field ++ lit "-0000-1000-8000-00805f9b34f")
            ++ [98%N])
    by (unfold vendor_uuid; now rewrite <- !app_assoc).
  rewrite strip_between by reflexivity.
  change (lit "-") with [45%N].
  rewrite replace_one_char.
  rewrite <- !app_assoc.
  change (48%N :: lit "000" ++ field ++ lit "-0000-1000-8000-00805f9b34f" ++ [98%N])
    with (lit "0000" ++ field ++ lit "-0000-1000-8000-00805f9b34fb").
  rewrite !filter_app. f_equal. f_equal.
  apply filter_all.
  apply (forallb_impl is_hex); [|assumption].
  intros c. now apply is_hex_differs.
Qed.

(** Around a field of hexadecimal digits the constructor returns when the
    field has four digits, and otherwise raises: the string is badly
    formed. *)
Lemma UUID_init_vendor_uuid (field : str) :
  forallb is_hex field = true ->
  if (length field =? 4)%nat
  then exists u, UUID_init (vendor_uuid field) = Return u
  else UUID_init (vendor_uuid field)
       = Raise (ValueError badly_formed_hexadecimal_UUID_string).
Proof.
  intros Hfield. unfold UUID_init.
  rewrite (vendor_uuid_digits field Hfield).
  rewrite !length_app.
  change (length (lit "0000")) with 4%nat.
  change (length (lit "00001000800000805f9b34fb")) with 24%nat.
  destruct (length field =? 4)%nat eqn:Hlen.
  - apply Nat.eqb_eq in Hlen.
    replace (4 + (length field + 24) =? 32)%nat with true
      by (symmetry; apply Nat.eqb_eq; lia).
    destruct (int16_hex32 (lit "0000" ++ field ++ lit "00001000800000805f9b34fb"))
      as (i & -> & Hi).
    + rewrite !length_app.
      change (length (lit "0000")) with 4%nat.
      change (length (lit "00001000800000805f9b34fb")) with 24%nat. lia.
    + now rewrite !forallb_app, Hfield.
    + cbn [negb bind].
      replace ((0 <=? i) && (i <? 2 ^ 128)) with true
        by (symmetry; apply andb_true_iff; split;
            [apply Z.leb_le | apply Z.ltb_lt]; lia).
      cbn [negb]. eauto.
  - apply Nat.eqb_neq in Hlen.
    replace (4 + (length field + 24) =? 32)%nat with false
      by (symmetry; apply Nat.eqb_neq; lia).
    reflexivity.
Qed.

(** The derivation returns on every 16-bit value. *)
Lemma short_code_derivation_returns (v : Z) :
  0 <= v < 0x10000 ->
  exists u, (s <- str_format UUID_TEMPLATE [v] ;; UUID_init s) = Return u.
Proof.
  intros Hv.
  rewrite template_around_field, (field_of_short_code v Hv).
  cbn [bind].
  exact (UUID_init_vendor_uuid (hex4 v) (hex4_is_hex v)).
Qed.

(** It raises on the first value that is not: the field takes 5 digits. *)
Lemma derivation_raises_beyond_16_bits :
  str_format (lit "{:0>4x}") [0x10000] = Return (lit "10000")
  /\ (s <- str_format UUID_TEMPLATE [0x10000] ;; UUID_init s)
     = Raise (ValueError badly_formed_hexadecimal_UUID_string).
Proof. split; vm_compute; reflexivity. Qed.

(** C9: every short code of DotCharacteristic is a 16-bit value, so its
    field in the template has exactly 4 digits and the construction of the
    UUID returns: whatever was read before, reading the property of a
    member returns a UUID. *)
Theorem uuid_derivation_is_total :
  forall (ms : list DotCharacteristic) (m : DotCharacteristic),
    0 <= value m < 0x10000
    /\ (exists field,
          str_format (lit "{:0>4x}") [value m] = Return field
          /\ length field = 4%nat)
    /\ (exists u, uuid_body m = Return u)
    /\ (exists u, fst (uuid m (after ms)) = Return u).
Proof.
  intros ms m.
  assert (Hm : 0 <= value m < 0x10000) by (destruct m; simpl; lia).
  split; [exact Hm|]. split; [|split].
  - exists (hex4 (value m)). split; [now apply field_of_short_code | reflexivity].
  - exact (short_code_derivation_returns (value m) Hm).
  - rewrite (uuid_result _ m (after_consistent ms)).
    exact (short_code_derivation_returns (value m) Hm).
Qed.

(** ** The matcher, one step at a time *)

Section RunEquations.
Variables (r r1 r2 : regex) (n i : nat) (c c' : char) (s : str).
Variable ranges : list (char * char).

Lemma run_Seq : run (Seq r1 r2) (i, s) = flat_map (run r2) (run r1 (i, s)).
Proof. reflexivity. Qed.

Lemma run_Group : run (Group r) (i, s) = run r (i, s).
Proof. reflexivity. Qed.

Lemma run_Repeat_0 : run (Repeat 0 r) (i, s) = [(i, s)].
Proof. reflexivity. Qed.

Lemma run_Repeat_S :
  run (Repeat (S n) r) (i, s) = flat_map (run r) (run (Repeat n r) (i, s)).
Proof. reflexivity. Qed.

Lemma run_Bol_start : run Bol (0%nat, s) = [(0%nat, s)].
Proof. reflexivity. Qed.

Lemma run_Eol : run Eol (i, s) = if at_end s then [(i, s)] else [].
Proof. reflexivity. Qed.

Lemma run_Lit_nil : run (Lit c) (i, []) = [].
Proof. reflexivity. Qed.

Lemma run_Lit_cons :
  run (Lit c) (i, c' :: s) = if (c' =? c)%N then [(S i, s)] else [].
Proof. reflexivity. Qed.

Lemma run_Class_nil : run (Class ranges) (i, []) = [].
Proof. reflexivity. Qed.

Lemma run_Class_cons :
  run (Class ranges) (i, c' :: s)
  = if in_ranges ranges c' then [(S i, s)] else [].
Proof. reflexivity. Qed.

Lemma flat_map_one (f : position -> list position) (p : position) :
  flat_map f [p] = f p.
Proof. simpl. apply app_nil_r. Qed.

Lemma flat_map_none (f : position -> list position) : flat_map f [] = [].
Proof. reflexivity. Qed.
End RunEquations.

Create Rewrite HintDb run.

#[local] Hint Rewrite run_Seq run_Group run_Repeat_0 run_Repeat_S run_Bol_start
  run_Eol run_Lit_nil run_Lit_cons run_Class_nil run_Class_cons
  flat_map_one flat_map_none : run.

(** One more character of the subject: the match fails at the end of the
    subject and when the character fails the test of the pattern. *)
Ltac next_char H s :=
  destruct s as [|? s]; autorewrite with run in H; [discriminate H|];
  match type of H with
  | context [if ?t then _ else _] =>
      destruct t eqn:?; autorewrite with run in H; [|discriminate H]
  end.

Lemma run_mac_inv (s : str) (p : position) (ps : list position) :
  run MAC_ADDRESS_REGEX (0%nat, s) = p :: ps ->
  ps = [] /\ fst p = 17%nat /\ at_end (snd p) = true
  /\ s = firstn 17 s ++ snd p /\ six_hex_pairsb (firstn 17 s) = true.
Proof.
  unfold MAC_ADDRESS_REGEX, hex_class. intros H.
  autorewrite with run in H.
  do 17 (next_char H s).
  destruct (at_end s) eqn:Hend; [|discriminate H].
  injection H as <- <-.
  repeat split; try assumption.
  unfold six_hex_pairsb, is_hex. cbn [firstn forallb].
  repeat match goal with E : _ = true |- _ => rewrite E; clear E end.
  reflexivity.
Qed.

Lemma run_mac_intro (body rest : str) :
  six_hex_pairsb body = true -> at_end rest = true ->
  run MAC_ADDRESS_REGEX (0%nat, body ++ rest) = [(17%nat, rest)].
Proof.
  intros Hbody Hrest.
  do 17 (destruct body as [|? body]; [discriminate Hbody|]).
  destruct body; [|discriminate Hbody].
  unfold six_hex_pairsb, is_hex in Hbody. cbn [forallb] in Hbody.
  repeat match goal with
         | E : _ && _ = true |- _ => apply andb_true_iff in E as [? ?]
         end.
  unfold MAC_ADDRESS_REGEX, hex_class. cbn [app].
  repeat (autorewrite with run;
          match goal with
          | E : ?t = true |- context [if ?t then _ else _] => rewrite E
          end).
  reflexivity.
Qed.

(** ** MAC addresses *)

Lemma six_hex_pairs_iff (s : str) : six_hex_pairs s <-> six_hex_pairsb s = true.
Proof.
  split.
  - intros (groups & Hlen & Hgroups & ->).
    do 6 (destruct groups as [|? groups]; [discriminate Hlen|]).
    destruct groups; [|discriminate Hlen].
    repeat match goal with
           | H : Forall _ (_ :: _) |- _ =>
               let a := fresh "a" in
               let b := fresh "b" in
               let Ha := fresh "Ha" in
               let Hb := fresh "Hb" in
               apply Forall_cons_iff in H as [(a & b & -> & Ha & Hb) H]
           end.
    unfold six_hex_pairsb. cbn [join app forallb].
    repeat match goal with E : is_hex _ = true |- _ => rewrite E; clear E end.
    reflexivity.
  - intros H.
    do 17 (destruct s as [|? s]; [discriminate H|]).
    destruct s; [|discriminate H].
    unfold six_hex_pairsb in H. cbn [forallb] in H.
    repeat match goal with
           | E : _ && _ = true |- _ => apply andb_true_iff in E as [? ?]
           end.
    repeat match goal with
           | E : (_ =? ch ":")%N = true |- _ => apply N.eqb_eq in E as ->
           end.
    eexists [[_; _]; [_; _]; [_; _]; [_; _]; [_; _]; [_; _]].
    split; [reflexivity|]. split; [|reflexivity].
    repeat constructor; unfold hex_pair; eauto.
Qed.

(** [fullmatch] finds a match exactly in six pairs of hexadecimal digits
    separated by colons. *)
Lemma mac_fullmatch_iff (address : str) :
  Pattern_fullmatch MAC_ADDRESS_REGEX address <> None <-> six_hex_pairs address.
Proof.
  unfold Pattern_fullmatch. split.
  - destruct (run MAC_ADDRESS_REGEX (0%nat, address)) as [|p ps] eqn:Hrun;
      [intros H; now contradiction H|].
    apply run_mac_inv in Hrun as (-> & _ & _ & Hsplit & Hbody).
    destruct p as [i rest]. cbn [filter snd] in *.
    destruct rest; [|intros H; now contradiction H].
    intros _. apply six_hex_pairs_iff.
    rewrite app_nil_r in Hsplit. now rewrite Hsplit.
  - intros Hbody. apply six_hex_pairs_iff in Hbody.
    pose proof (run_mac_intro address [] Hbody eq_refl) as Hrun.
    rewrite app_nil_r in Hrun. unfold str in *. rewrite Hrun. discriminate.
Qed.

Lemma six_hex_pairs_length (s : str) : six_hex_pairs s -> length s = 17%nat.
Proof.
  intros H. apply six_hex_pairs_iff in H.
  do 17 (destruct s as [|? s]; [discriminate H|]).
  destruct s; [reflexivity | discriminate H].
Qed.

Lemma Return_inj {A} (a b : A) : Return a = Return b -> a = b.
Proof. congruence. Qed.

Lemma Return_false_iff (r : bool) : Return r = Return false <-> Return r <> Return true.
Proof. destruct r; split; congruence. Qed.

(** The validation answers true exactly on six pairs of hexadecimal digits
    separated by colons. *)
Lemma mac_validation_iff (address : str) :
  isValidMacAddress address = Return true <-> six_hex_pairs address.
Proof.
  rewrite <- mac_fullmatch_iff. unfold isValidMacAddress.
  destruct (Pattern_fullmatch MAC_ADDRESS_REGEX address); split;
    congruence.
Qed.

(** C2: for every string the validation answers true exactly when the
    whole string is six pairs of hexadecimal digits, in either case,
    separated by colons, 17 characters with none before or after, and
    false otherwise.  AA:BB:CC:DD:EE:FF and aa:bb:cc:dd:ee:ff are accepted;
    AA:BB:CC:DD:EE:FG, AA:BB:CC:DD:EE and AA-BB-CC-DD-EE-FF are rejected,
    and so is an address with a space before it or a newline after it. *)
Theorem mac_validation_accepts_exactly_six_pairs :
  forall address : str,
    (isValidMacAddress address = Return true <-> six_hex_pairs address)
    /\ (isValidMacAddress address = Return false <-> ~ six_hex_pairs address)
    /\ (isValidMacAddress address = Return true -> length address = 17%nat)
    /\ isValidMacAddress (lit "AA:BB:CC:DD:EE:FF") = Return true
    /\ isValidMacAddress (lit "aa:bb:cc:dd:ee:ff") = Return true
    /\ isValidMacAddress (lit "AA:BB:CC:DD:EE:FG") = Return false
    /\ isValidMacAddress (lit "AA:BB:CC:DD:EE") = Return false
    /\ isValidMacAddress (lit "AA-BB-CC-DD-EE-FF") = Return false
    /\ isValidMacAddress (lit " AA:BB:CC:DD:EE:FF") = Return false
    /\ isValidMacAddress (lit "AA:BB:CC:DD:EE:FF" ++ [10%N]) = Return false.
Proof.
  intros address.
  split; [apply mac_validation_iff|].
  split; [|split; [|repeat split; reflexivity]].
  - rewrite <- mac_validation_iff. apply Return_false_iff.
  - intros H. now apply six_hex_pairs_length, mac_validation_iff.
Qed.

(** ** Device names *)

Lemma startswith_iff (prefix s : str) :
  startswith prefix s = true <-> exists rest, s = prefix ++ rest.
Proof.
  revert s. induction prefix as [|p prefix IH]; intros s; simpl.
  - split; eauto.
  - destruct s as [|c s].
    + split; [discriminate | intros [rest H]; discriminate H].
    + rewrite andb_true_iff, N.eqb_eq, IH. split.
      * intros [-> [rest ->]]. eauto.
      * intros [rest [= -> ->]]. eauto.
Qed.

Lemma supported_name_entry (name : str) :
  isSupportedDeviceName name = Return true
  <-> exists entry rest,
        In entry LUXAFOR_BLUETOOTH_NAMES /\ firstn 7 name = entry ++ rest.
Proof.
  unfold isSupportedDeviceName.
  change (slice 0 7 name) with (firstn 7 name).
  split.
  - intros H. apply Return_inj in H.
    apply existsb_exists in H as (entry & Hin & Hstart).
    apply startswith_iff in Hstart as [rest Hrest]. eauto.
  - intros (entry & rest & Hin & Hrest). f_equal.
    apply existsb_exists. exists entry. split; [assumption|].
    apply startswith_iff. eauto.
Qed.

Lemma supported_name_iff (name : str) :
  isSupportedDeviceName name = Return true
  <-> exists rest, name = lit "lux dot" ++ rest.
Proof.
  rewrite supported_name_entry. split.
  - intros (entry & rest & [<-|[]] & Hrest).
    exists (skipn 7 name).
    rewrite <- (firstn_skipn 7 name) at 1. f_equal.
    assert (Hlen : length (firstn 7 name) = length (lit "lux dot" ++ rest))
      by now rewrite Hrest.
    rewrite length_app in Hlen.
    pose proof (firstn_le_length 7 name) as Hle.
    change (length (lit "lux dot")) with 7%nat in Hlen.
    destruct rest; [|cbn [length] in Hlen; lia].
    now rewrite Hrest, app_nil_r.
  - intros [rest ->]. exists (lit "lux dot"), [].
    split; [now left | reflexivity].
Qed.

(** C3: the first 7 characters of the name, or all of it when it is
    shorter, are compared with each entry of the table, which holds "lux
    dot" alone; the answer is true exactly when an entry is a prefix of
    them, character for character, that is when the name begins with
    "lux dot".  "lux dot 42" is supported; "LUX DOT", "lux d" and the empty
    name are not. *)
Theorem device_name_is_matched_on_its_first_7_characters :
  forall name : str,
    (isSupportedDeviceName name = Return true
     <-> exists entry rest,
           In entry LUXAFOR_BLUETOOTH_NAMES /\ firstn 7 name = entry ++ rest)
    /\ (isSupportedDeviceName name = Return true
        <-> exists rest, name = lit "lux dot" ++ rest)
    /\ (isSupportedDeviceName name = Return false
        <-> ~ exists rest, name = lit "lux dot" ++ rest)
    /\ LUXAFOR_BLUETOOTH_NAMES = [lit "lux dot"]
    /\ isSupportedDeviceName (lit "lux dot 42") = Return true
    /\ isSupportedDeviceName (lit "LUX DOT") = Return false
    /\ isSupportedDeviceName (lit "lux d") = Return false
    /\ isSupportedDeviceName (lit "") = Return false.
Proof.
  intros name.
  split; [apply supported_name_entry|].
  split; [apply supported_name_iff|].
  split; [|repeat split; reflexivity].
  rewrite <- supported_name_iff. apply Return_false_iff.
Qed.

(** * Further properties *)

(** ** Hexadecimal digits and the numbers they write *)

Lemma hex_value_lt (c : char) (d : N) : hex_value c = Some d -> (d < 16)%N.
Proof.
  unfold hex_value.
  destruct ((48 <=? c) && (c <=? 57))%N eqn:H1;
    [intros [= <-]; to_prop; lia|].
  destruct ((97 <=? c) && (c <=? 102))%N eqn:H2;
    [intros [= <-]; to_prop; lia|].
  destruct ((65 <=? c) && (c <=? 70))%N eqn:H3;
    [intros [= <-]; to_prop; lia | discriminate].
Qed.

Lemma hex_value_hex_digit (up : bool) (d : N) :
  (d < 16)%N -> hex_value (hex_digit up d) = Some d.
Proof.
  intros Hd. unfold hex_value, hex_digit.
  destruct (d <? 10)%N eqn:Hlt.
  - replace ((48 <=? 48 + d) && (48 + d <=? 57))%N with true
      by (symmetry; to_prop; lia).
    f_equal. lia.
  - replace ((48 <=? (if up then 55 else 87) + d)
             && ((if up then 55 else 87) + d <=? 57))%N with false
      by (symmetry; destruct up; to_prop; lia).
    destruct up.
    + replace ((97 <=? 55 + d) && (55 + d <=? 102))%N with false
        by (symmetry; to_prop; lia).
      replace ((65 <=? 55 + d) && (55 + d <=? 70))%N with true
        by (symmetry; to_prop; lia).
      f_equal. lia.
    + replace ((97 <=? 87 + d) && (87 + d <=? 102))%N with true
        by (symmetry; to_prop; lia).
      f_equal. lia.
Qed.

Lemma is_lower_hex_ranges (c : char) :
  is_lower_hex c = ((48 <=? c) && (c <=? 57) || (97 <=? c) && (c <=? 102))%N.
Proof.
  unfold is_lower_hex, in_ranges, ch. simpl. now rewrite orb_false_r.
Qed.

Lemma is_lower_hex_is_hex (c : char) : is_lower_hex c = true -> is_hex c = true.
Proof.
  rewrite is_lower_hex_ranges, is_hex_ranges. to_prop. lia.
Qed.

Lemma hex_digit_is_lower_hex (d : N) :
  (d < 16)%N -> is_lower_hex (hex_digit false d) = true.
Proof.
  intros Hd. rewrite is_lower_hex_ranges. unfold hex_digit.
  destruct (d <? 10)%N eqn:Hlt; to_prop; lia.
Qed.

(** A lowercase digit is the digit of its value. *)
Lemma lower_hex_of_value (c : char) (d : N) :
  is_lower_hex c = true -> hex_value c = Some d -> c = hex_digit false d.
Proof.
  rewrite is_lower_hex_ranges. unfold hex_value, hex_digit. intros Hc.
  destruct ((48 <=? c) && (c <=? 57))%N eqn:H1.
  - intros [= <-].
    replace (c - 48 <? 10)%N with true by (symmetry; to_prop; lia).
    to_prop. lia.
  - destruct ((97 <=? c) && (c <=? 102))%N eqn:H2.
    + intros [= <-].
      replace (c - 87 <? 10)%N with false by (symmetry; to_prop; lia).
      to_prop. lia.
    + to_prop. lia.
Qed.

Lemma int16_from_app (xs ys : str) :
  forall acc,
    int16_from acc (xs ++ ys)
    = match int16_from acc xs with
      | Some n => int16_from n ys
      | None => None
      end.
Proof.
  induction xs as [|c xs IH]; intros acc; cbn [app int16_from]; [reflexivity|].
  destruct (hex_value c); [apply IH | reflexivity].
Qed.

(** The digits read after [acc] write a number between [acc] shifted and
    the next one. *)
Lemma int16_from_bounds (s : str) :
  forall acc n,
    int16_from acc s = Some n ->
    (acc * 16 ^ N.of_nat (length s) <= n < (acc + 1) * 16 ^ N.of_nat (length s))%N.
Proof.
  induction s as [|c s IH]; intros acc n; cbn [int16_from length].
  - intros [= <-]. change (N.of_nat 0) with 0%N. rewrite N.pow_0_r. lia.
  - destruct (hex_value c) as [d|] eqn:Hc; [|discriminate].
    intros Hn. apply hex_value_lt in Hc. apply IH in Hn.
    rewrite Nat2N.inj_succ, N.pow_succ_r'. nia.
Qed.

(** Two runs of lowercase digits of one length that write the same number
    after [a] and after [b] are the same run, and [a] is [b]. *)
Lemma int16_from_inj (s : str) :
  forall t a b n,
    length s = length t ->
    forallb is_lower_hex s = true -> forallb is_lower_hex t = true ->
    int16_from a s = Some n -> int16_from b t = Some n ->
    a = b /\ s = t.
Proof.
  induction s as [|c s IH]; intros [|c' t] a b n Hlen Hs Ht;
    try discriminate Hlen; cbn [int16_from].
  - intros [= <-] [= <-]. auto.
  - cbn [forallb] in Hs, Ht.
    apply andb_true_iff in Hs as [Hc Hs], Ht as [Hc' Ht].
    destruct (hex_value c) as [d|] eqn:Hd; [|discriminate].
    destruct (hex_value c') as [d'|] eqn:Hd'; [|discriminate].
    intros Hn Hn'.
    injection Hlen as Hlen.
    destruct (IH t _ _ n Hlen Hs Ht Hn Hn') as [Hacc ->].
    pose proof (hex_value_lt _ _ Hd). pose proof (hex_value_lt _ _ Hd').
    assert (a = b) by lia. assert (d = d') by lia. subst.
    split; [reflexivity|]. f_equal.
    rewrite (lower_hex_of_value c d' Hc Hd).
    now rewrite (lower_hex_of_value c' d' Hc' Hd').
Qed.

Lemma int16_from_zeros (k : nat) (s : str) :
  int16_from 0 (repeat (ch "0") k ++ s) = int16_from 0 s.
Proof.
  induction k as [|k IH]; [reflexivity|].
  cbn [repeat app int16_from]. exact IH.
Qed.

Lemma nibbles (n : N) :
  (N.land n 15 < 16 /\ n = 16 * N.shiftr n 4 + N.land n 15)%N.
Proof.
  change 15%N with (N.ones 4). rewrite N.land_ones, N.shiftr_div_pow2.
  change (2 ^ 4)%N with 16%N.
  pose proof (N.mod_upper_bound n 16). pose proof (N.div_mod n 16).
  lia.
Qed.

(** With enough fuel the digits are put before [acc]; they read back as
    [n], and there are no more of them than [n] needs. *)
Lemma hex_digits_from_spec (fuel : nat) :
  forall (up : bool) (n : N) (acc : str),
    (0 < fuel)%nat -> (n < 2 ^ N.of_nat fuel)%N ->
    exists ds,
      hex_digits_from fuel up n acc = ds ++ acc
      /\ int16_from 0 ds = Some n
      /\ Forall (fun c => exists d, (d < 16)%N /\ c = hex_digit up d) ds
      /\ (length ds = 1%nat \/ (16 ^ N.of_nat (length ds - 1) <= n)%N).
Proof.
  induction fuel as [|fuel IH]; intros up n acc Hfuel Hn; [lia|].
  cbn [hex_digits_from].
  destruct (nibbles n) as [Hd Hsplit].
  destruct (N.shiftr n 4 =? 0)%N eqn:Hq.
  - apply N.eqb_eq in Hq. exists [hex_digit up (N.land n 15)].
    split; [reflexivity|]. split; [|split; [|now left]].
    + cbn [int16_from]. rewrite (hex_value_hex_digit up _ Hd). f_equal. lia.
    + constructor; [eauto | constructor].
  - apply N.eqb_neq in Hq.
    assert (Hfuel' : (0 < fuel)%nat).
    { destruct fuel; [|lia]. change (2 ^ N.of_nat 1)%N with 2%N in Hn. lia. }
    assert (Hn' : (N.shiftr n 4 < 2 ^ N.of_nat fuel)%N).
    { rewrite Nat2N.inj_succ, N.pow_succ_r' in Hn. lia. }
    destruct (IH up (N.shiftr n 4) (hex_digit up (N.land n 15) :: acc) Hfuel' Hn')
      as (ds & -> & Hval & Hds & Hlen).
    exists (ds ++ [hex_digit up (N.land n 15)]).
    split; [now rewrite <- app_assoc|]. split; [|split].
    + rewrite int16_from_app, Hval. cbn [int16_from].
      rewrite (hex_value_hex_digit up _ Hd). f_equal. lia.
    + apply Forall_app. split; [assumption|]. constructor; [eauto | constructor].
    + right. rewrite length_app. cbn [length].
      replace (length ds + 1 - 1)%nat with (length ds) by lia.
      destruct Hlen as [->|Hlen].
      * change (16 ^ N.of_nat 1)%N with 16%N. lia.
      * destruct (length ds) as [|k]; [rewrite N.pow_0_r; lia|].
        rewrite Nat2N.inj_succ, N.pow_succ_r'.
        replace (S k - 1)%nat with k in Hlen by lia. lia.
Qed.

Lemma hex_digits_spec (up : bool) (n : N) :
  exists ds,
    hex_digits up n = ds
    /\ int16_from 0 ds = Some n
    /\ Forall (fun c => exists d, (d < 16)%N /\ c = hex_digit up d) ds
    /\ (length ds = 1%nat \/ (16 ^ N.of_nat (length ds - 1) <= n)%N).
Proof.
  unfold hex_digits.
  destruct (hex_digits_from_spec (S (N.to_nat (N.log2 n))) up n []) as (ds & H).
  - lia.
  - rewrite Nat2N.inj_succ, N2Nat.id.
    destruct n as [|p]; [reflexivity|]. apply N.log2_spec. lia.
  - rewrite app_nil_r in H. eauto.
Qed.

Lemma int16_from_shift (s : str) :
  forall acc,
    int16_from acc s
    = option_map (fun n => acc * 16 ^ N.of_nat (length s) + n)%N (int16_from 0 s).
Proof.
  induction s as [|c s IH]; intros acc; cbn [int16_from length].
  - cbn [option_map]. change (N.of_nat 0) with 0%N. rewrite N.pow_0_r.
    f_equal. lia.
  - destruct (hex_value c) as [d|]; [|reflexivity].
    rewrite (IH (16 * acc + d)%N), (IH (16 * 0 + d)%N).
    destruct (int16_from 0 s) as [n|]; [|reflexivity].
    cbn [option_map]. f_equal.
    rewrite Nat2N.inj_succ, N.pow_succ_r'. ring.
Qed.

Lemma forallb_lower_hex_digits (ds : str) :
  Forall (fun c => exists d, (d < 16)%N /\ c = hex_digit false d) ds ->
  forallb is_lower_hex ds = true.
Proof.
  intros H. apply forallb_forall. intros c Hc.
  rewrite Forall_forall in H. destruct (H c Hc) as (d & Hd & ->).
  now apply hex_digit_is_lower_hex.
Qed.

(** The digits of a number, padded with zeros to the length of a run of
    lowercase digits that writes it, are that run. *)
Lemma zero_padded_digits (s : str) (n : N) :
  (0 < length s)%nat -> forallb is_lower_hex s = true ->
  int16_from 0 s = Some n ->
  repeat (ch "0") (length s - length (hex_digits false n)) ++ hex_digits false n
  = s.
Proof.
  intros Hpos Hs Hn.
  destruct (hex_digits_spec false n) as (ds & -> & Hval & Hds & Hlen).
  apply int16_from_bounds in Hn as Hbound.
  assert (Hle : (length ds <= length s)%nat).
  { destruct Hlen as [->|Hlen]; [lia|].
    assert (16 ^ N.of_nat (length ds - 1) < 16 ^ N.of_nat (length s))%N as Hpow
      by lia.
    apply N.pow_lt_mono_r_iff in Hpow; lia. }
  symmetry.
  apply (int16_from_inj s _ 0%N 0%N n); try assumption.
  - rewrite length_app, repeat_length. lia.
  - rewrite forallb_app. apply andb_true_iff. split.
    + apply forallb_forall. intros c Hc. apply repeat_spec in Hc as ->.
      reflexivity.
    + now apply forallb_lower_hex_digits.
  - now rewrite int16_from_zeros.
Qed.

(** '%032x' of the number that 32 lowercase digits write gives the digits
    back. *)
Lemma format_032x_of_digits (s : str) (n : N) :
  length s = 32%nat -> forallb is_lower_hex s = true ->
  int16_from 0 s = Some n ->
  format_int (Z.of_N n)
    {| fill := ch "0"; align := AlignSign; width := 32; upper := false |}
  = s.
Proof.
  intros Hlen Hs Hn. unfold format_int.
  cbn [fill align width upper].
  replace (Z.of_N n <? 0) with false by (symmetry; apply Z.ltb_ge; lia).
  replace (Z.to_N (Z.abs (Z.of_N n))) with n by lia.
  cbn [app]. rewrite <- Hlen.
  apply zero_padded_digits; (assumption || lia).
Qed.

(** So the text of the UUID is the digits with their hyphens. *)
Lemma UUID_str_of_digits (s : str) (n : N) :
  length s = 32%nat -> forallb is_lower_hex s = true ->
  int16_from 0 s = Some n ->
  UUID_str {| int := Z.of_N n |} = hyphenated s.
Proof.
  intros Hlen Hs Hn. unfold UUID_str, hyphenated. cbn [int].
  now rewrite (format_032x_of_digits s n).
Qed.

Lemma forallb_firstn_skipn {A} (p : A -> bool) (k : nat) (l : list A) :
  forallb p l = true ->
  forallb p (firstn k l) = true /\ forallb p (skipn k l) = true.
Proof.
  rewrite <- (firstn_skipn k l) at 1. rewrite forallb_app.
  apply andb_true_iff.
Qed.

Lemma forallb_firstn {A} (p : A -> bool) (k : nat) (l : list A) :
  forallb p l = true -> forallb p (firstn k l) = true.
Proof. apply forallb_firstn_skipn. Qed.

Lemma forallb_skipn {A} (p : A -> bool) (k : nat) (l : list A) :
  forallb p l = true -> forallb p (skipn k l) = true.
Proof. apply forallb_firstn_skipn. Qed.

Lemma forallb_slice (p : char -> bool) (a b : nat) (s : str) :
  forallb p s = true -> forallb p (slice a b s) = true.
Proof.
  intros H. unfold slice. now apply forallb_firstn, forallb_skipn.
Qed.

Lemma length_slice (a b : nat) (s : str) :
  (a <= b <= length s)%nat -> length (slice a b s) = (b - a)%nat.
Proof.
  intros H. unfold slice. rewrite length_firstn, length_skipn. lia.
Qed.

Lemma slice_skipn (a b : nat) (s : str) :
  (a <= b)%nat -> slice a b s ++ skipn b s = skipn a s.
Proof.
  intros Hab. unfold slice.
  rewrite <- (firstn_skipn (b - a) (skipn a s)) at 2.
  rewrite skipn_skipn. now replace (b - a + a)%nat with b by lia.
Qed.

(** The five groups are the digits, in order. *)
Lemma slices_cover (s : str) :
  slice 0 8 s ++ slice 8 12 s ++ slice 12 16 s ++ slice 16 20 s ++ skipn 20 s
  = s.
Proof.
  now rewrite (slice_skipn 16 20), (slice_skipn 12 16), (slice_skipn 8 12),
    (slice_skipn 0 8) by lia.
Qed.

(** ** The canonical pattern *)

Lemma run_Repeat_Class (ranges : list (char * char)) (xs : str) :
  forall (i : nat) (rest : str),
    forallb (in_ranges ranges) xs = true ->
    run (Repeat (length xs) (Class ranges)) (i, xs ++ rest)
    = [((i + length xs)%nat, rest)].
Proof.
  induction xs as [|x xs IH] using rev_ind; intros i rest Hxs.
  - cbn [length app]. rewrite run_Repeat_0. f_equal. f_equal. lia.
  - rewrite forallb_app in Hxs. apply andb_true_iff in Hxs as [Hxs Hx].
    cbn [forallb] in Hx. rewrite andb_true_r in Hx.
    rewrite length_app. cbn [length]. rewrite Nat.add_1_r.
    rewrite run_Repeat_S, <- app_assoc. cbn [app].
    unfold str in *.
    rewrite (IH i (x :: rest) Hxs), flat_map_one, run_Class_cons, Hx.
    f_equal. f_equal. lia.
Qed.

Lemma run_Repeat_Class_n (k : nat) (ranges : list (char * char)) (xs : str)
    (i : nat) (rest : str) :
  length xs = k -> forallb (in_ranges ranges) xs = true ->
  run (Repeat k (Class ranges)) (i, xs ++ rest) = [((i + k)%nat, rest)].
Proof. intros <-. apply run_Repeat_Class. Qed.

(** Groups of 8, 4, 4, 4 and 12 lowercase digits joined by hyphens are in
    the canonical form. *)
Lemma canonical_groups (g1 g2 g3 g4 g5 : str) :
  length g1 = 8%nat -> length g2 = 4%nat -> length g3 = 4%nat ->
  length g4 = 4%nat -> length g5 = 12%nat ->
  forallb is_lower_hex (g1 ++ g2 ++ g3 ++ g4 ++ g5) = true ->
  is_canonical_uuid
    (g1 ++ ch "-" :: g2 ++ ch "-" :: g3 ++ ch "-" :: g4 ++ ch "-" :: g5) = true.
Proof.
  intros H1 H2 H3 H4 H5 Hall.
  rewrite !forallb_app in Hall.
  repeat match goal with
         | E : _ && _ = true |- _ => apply andb_true_iff in E as [? ?]
         end.
  assert (Hrun :
    run canonical_uuid_regex
      (0%nat,
       g1 ++ ch "-" :: g2 ++ ch "-" :: g3 ++ ch "-" :: g4 ++ ch "-" :: g5 ++ [])
    = [(36%nat, [])]).
  { unfold canonical_uuid_regex, lower_hex_class. unfold str in *.
    rewrite run_Seq, (run_Repeat_Class_n 8 _ g1), flat_map_one by assumption.
    rewrite run_Seq, run_Lit_cons, N.eqb_refl, flat_map_one.
    rewrite run_Seq, (run_Repeat_Class_n 4 _ g2), flat_map_one by assumption.
    rewrite run_Seq, run_Lit_cons, N.eqb_refl, flat_map_one.
    rewrite run_Seq, (run_Repeat_Class_n 4 _ g3), flat_map_one by assumption.
    rewrite run_Seq, run_Lit_cons, N.eqb_refl, flat_map_one.
    rewrite run_Seq, (run_Repeat_Class_n 4 _ g4), flat_map_one by assumption.
    rewrite run_Seq, run_Lit_cons, N.eqb_refl, flat_map_one.
    now rewrite (run_Repeat_Class_n 12 _ g5) by assumption. }
  rewrite app_nil_r in Hrun.
  unfold is_canonical_uuid, Pattern_fullmatch. unfold str in *.
  now rewrite Hrun.
Qed.

(** ** A UUID and its text *)

Lemma lstrip_none (chars s : str) :
  forallb (fun c => negb (char_in chars c)) s = true -> lstrip chars s = s.
Proof.
  destruct s as [|c s]; [reflexivity|]. cbn [forallb lstrip].
  intros H. apply andb_true_iff in H as [Hc _].
  apply negb_true_iff in Hc. now rewrite Hc.
Qed.

Lemma strip_none (chars s : str) :
  forallb (fun c => negb (char_in chars c)) s = true -> strip chars s = s.
Proof.
  intros H. unfold strip. rewrite (lstrip_none chars s H).
  rewrite lstrip_none; [apply rev_involutive|].
  rewrite forallb_forall in *. intros c Hc. apply H. now apply in_rev.
Qed.

Lemma lower_hex_differs (o c : char) :
  is_lower_hex o = false -> is_lower_hex c = true -> negb (c =? o)%N = true.
Proof.
  intros Ho Hc. apply negb_true_iff, N.eqb_neq. congruence.
Qed.

Lemma filter_hyphen (l : str) :
  filter (fun c => negb (c =? 45)%N) (ch "-" :: l)
  = filter (fun c => negb (c =? 45)%N) l.
Proof. reflexivity. Qed.

Lemma forallb_hyphenated (p : char -> bool) (s : str) :
  p (ch "-") = true -> forallb p s = true -> forallb p (hyphenated s) = true.
Proof.
  intros Hp Hs. unfold hyphenated.
  repeat progress (rewrite ?forallb_app; cbn [forallb]).
  rewrite Hp, !(forallb_slice p _ _ s Hs), (forallb_skipn p 20 s Hs).
  reflexivity.
Qed.

(** The constructor reads the hyphenated text of 32 lowercase digits as
    the number the digits write. *)
Lemma UUID_init_hyphenated (s : str) (n : N) :
  length s = 32%nat -> forallb is_lower_hex s = true ->
  int16_from 0 s = Some n ->
  UUID_init (hyphenated s) = Return {| int := Z.of_N n |}.
Proof.
  intros Hlen Hs Hn.
  assert (Hp : forallb (fun c => is_lower_hex c || (c =? 45)%N) (hyphenated s)
               = true).
  { apply forallb_hyphenated; [reflexivity|].
    apply (forallb_impl is_lower_hex); [intros c ->; reflexivity | assumption]. }
  assert (Hu : forallb (fun c => negb (c =? 117)%N) (hyphenated s) = true).
  { revert Hp. apply forallb_impl. intros c Hc.
    apply orb_true_iff in Hc as [Hc|Hc].
    - now apply (lower_hex_differs 117%N).
    - apply N.eqb_eq in Hc as ->. reflexivity. }
  assert (Hb : forallb (fun c => negb (char_in (lit "{}") c)) (hyphenated s)
               = true).
  { revert Hp. apply forallb_impl. intros c Hc.
    unfold char_in. cbn [lit list_ascii_of_string map existsb].
    rewrite orb_false_r, negb_orb.
    apply orb_true_iff in Hc as [Hc|Hc].
    - apply andb_true_iff. split; apply negb_true_iff, N.eqb_neq;
        intros <-; discriminate Hc.
    - apply N.eqb_eq in Hc as ->. reflexivity. }
  unfold UUID_init.
  change (lit "urn:") with (117%N :: lit "rn:").
  change (lit "uuid:") with (117%N :: lit "uid:").
  rewrite (replace_absent _ _ _ (hyphenated s) Hu).
  rewrite (replace_absent _ _ _ (hyphenated s) Hu).
  rewrite (strip_none _ _ Hb).
  change (lit "-") with [45%N]. rewrite replace_one_char.
  assert (Hf : filter (fun c => negb (c =? 45)%N) (hyphenated s) = s).
  { unfold hyphenated.
    repeat rewrite filter_app, filter_hyphen.
    assert (Hsl : forall a b,
               filter (fun c => negb (c =? 45)%N) (slice a b s) = slice a b s).
    { intros a b. apply filter_all. apply (forallb_impl is_lower_hex).
      - intros c. now apply lower_hex_differs.
      - now apply forallb_slice. }
    rewrite !Hsl, filter_all; [apply slices_cover|].
    apply (forallb_impl is_lower_hex).
    - intros c. now apply lower_hex_differs.
    - now apply forallb_skipn. }
  rewrite Hf, Hlen. cbn [Nat.eqb negb].
  unfold int16. rewrite Hn.
  destruct s as [|c s']; [discriminate Hlen|].
  cbn [bind].
  apply int16_from_bounds in Hn. rewrite Hlen in Hn.
  replace ((0 <=? Z.of_N n) && (Z.of_N n <? 2 ^ 128)) with true; [reflexivity|].
  symmetry. apply andb_true_iff. split; [apply Z.leb_le | apply Z.ltb_lt]; [lia|].
  change (2 ^ 128) with (Z.of_N ((0 + 1) * 16 ^ N.of_nat 32)). lia.
Qed.

Lemma is_canonical_hyphenated (s : str) :
  length s = 32%nat -> forallb is_lower_hex s = true ->
  is_canonical_uuid (hyphenated s) = true.
Proof.
  intros Hlen Hs. unfold hyphenated.
  apply canonical_groups; try (apply length_slice; lia).
  - rewrite length_skipn. lia.
  - now rewrite slices_cover.
Qed.

(** ** The template on a 16-bit code *)

Lemma hex4_value (v : Z) :
  0 <= v < 0x10000 -> int16_from 0 (hex4 v) = Some (Z.to_N v).
Proof.
  intros Hv. unfold hex4. cbn [map int16_from].
  change (16 ^ 3) with 4096. change (16 ^ 2) with 256.
  change (16 ^ 1) with 16. change (16 ^ 0) with 1.
  repeat rewrite hex_value_hex_digit
    by (match goal with |- (Z.to_N (?x mod 16) < 16)%N =>
          pose proof (Z.mod_pos_bound x 16 eq_refl); lia end).
  f_equal. Z.div_mod_to_equations. lia.
Qed.

Lemma hex4_is_lower_hex (v : Z) : forallb is_lower_hex (hex4 v) = true.
Proof.
  unfold hex4. rewrite forallb_forall. intros c Hc.
  apply in_map_iff in Hc as (k & <- & _).
  apply hex_digit_is_lower_hex.
  pose proof (Z.mod_pos_bound (v / 16 ^ k) 16 eq_refl). lia.
Qed.

(** The vendor UUID around four characters is the hyphenated form of its
    32 digits. *)
Lemma vendor_uuid_hyphenated (field : str) :
  length field = 4%nat ->
  vendor_uuid field
  = hyphenated (lit "0000" ++ field ++ lit "00001000800000805f9b34fb").
Proof.
  intros Hlen.
  do 4 (destruct field as [|? field]; [discriminate Hlen|]).
  destruct field; [reflexivity | discriminate Hlen].
Qed.

Lemma short_code_digits (v : Z) :
  0 <= v < 0x10000 ->
  int16_from 0 (lit "0000" ++ hex4 v ++ lit "00001000800000805f9b34fb")
  = Some (Z.to_N (v * 2 ^ 96 + base_uuid_int)).
Proof.
  intros Hv.
  rewrite int16_from_app.
  change (int16_from 0 (lit "0000")) with (Some 0%N). cbv beta iota.
  rewrite int16_from_app, (hex4_value v Hv), int16_from_shift.
  change (int16_from 0 (lit "00001000800000805f9b34fb"))
    with (Some (Z.to_N base_uuid_int)).
  change (length (lit "00001000800000805f9b34fb")) with 24%nat.
  cbn [option_map]. f_equal.
  change (16 ^ N.of_nat 24)%N with (Z.to_N (2 ^ 96)).
  assert (0 <= base_uuid_int) by (unfold base_uuid_int; lia).
  assert (0 < 2 ^ 96) by reflexivity.
  rewrite <- Z2N.inj_mul, <- Z2N.inj_add by lia. reflexivity.
Qed.

(** The constructor on the vendor UUID around the four digits of a 16-bit
    value, and the text of what it returns. *)
Lemma UUID_of_hex4 (v : Z) :
  0 <= v < 0x10000 ->
  UUID_init (vendor_uuid (hex4 v))
  = Return {| int := v * 2 ^ 96 + base_uuid_int |}
  /\ UUID_str {| int := v * 2 ^ 96 + base_uuid_int |} = vendor_uuid (hex4 v).
Proof.
  intros Hv.
  pose proof (short_code_digits v Hv) as Hn.
  assert (Hlen : length (lit "0000" ++ hex4 v ++ lit "00001000800000805f9b34fb")
                 = 32%nat) by reflexivity.
  assert (Hs : forallb is_lower_hex
                 (lit "0000" ++ hex4 v ++ lit "00001000800000805f9b34fb") = true)
    by now rewrite !forallb_app, hex4_is_lower_hex.
  assert (Hint : Z.of_N (Z.to_N (v * 2 ^ 96 + base_uuid_int))
                 = v * 2 ^ 96 + base_uuid_int)
    by (unfold base_uuid_int; lia).
  pose proof (UUID_str_of_digits _ _ Hlen Hs Hn) as Hstr.
  pose proof (UUID_init_hyphenated _ _ Hlen Hs Hn) as Hinit.
  rewrite Hint in Hstr, Hinit.
  rewrite <- (vendor_uuid_hyphenated (hex4 v) eq_refl) in Hstr, Hinit.
  now split.
Qed.

(** X1: on every 16-bit value the derivation returns the UUID whose integer
    is the value shifted by 96 bits onto the Bluetooth base UUID; the text
    of that UUID is the formatted template itself, in canonical form, and
    it reads back as the same UUID. *)
Theorem template_uuid_of_short_code (v : Z) :
  0 <= v < 0x10000 ->
  exists u,
    template_uuid v = Return u
    /\ int u = v * 2 ^ 96 + base_uuid_int
    /\ str_format UUID_TEMPLATE [v] = Return (UUID_str u)
    /\ UUID_str u = vendor_uuid (hex4 v)
    /\ is_canonical_uuid (UUID_str u) = true
    /\ UUID_init (UUID_str u) = Return u.
Proof.
  intros Hv.
  destruct (UUID_of_hex4 v Hv) as [Hinit Hstr].
  exists {| int := v * 2 ^ 96 + base_uuid_int |}.
  assert (Hfmt : str_format UUID_TEMPLATE [v] = Return (vendor_uuid (hex4 v))).
  { now rewrite template_around_field, (field_of_short_code v Hv). }
  unfold template_uuid. rewrite Hfmt, Hstr. cbn [bind].
  repeat split; try assumption.
  rewrite (vendor_uuid_hyphenated (hex4 v) eq_refl).
  apply is_canonical_hyphenated; [reflexivity|].
  now rewrite !forallb_app, hex4_is_lower_hex.
Qed.

Lemma template_uuid_of_short_code_witness :
  0 <= 0xFFFF < 0x10000
  /\ exists u,
       template_uuid 0xFFFF = Return u
       /\ int u = 0xFFFF * 2 ^ 96 + base_uuid_int
       /\ str_format UUID_TEMPLATE [0xFFFF] = Return (UUID_str u)
       /\ UUID_str u = vendor_uuid (hex4 0xFFFF)
       /\ is_canonical_uuid (UUID_str u) = true
       /\ UUID_init (UUID_str u) = Return u.
Proof.
  split; [lia|]. apply (template_uuid_of_short_code 0xFFFF). lia.
Defined.

(** ** The template on any integer *)

Lemma field_format (v : Z) :
  str_format (lit "{:0>4x}") [v]
  = Return (format_int v {| fill := ch "0"; align := AlignRight;
                            width := 4; upper := false |}).
Proof.
  unfold str_format.
  replace (scan Outside (lit "{:0>4x}"))
    with (Some [Field {| fill := ch "0"; align := AlignRight;
                         width := 4; upper := false |}])
    by (vm_compute; reflexivity).
  cbn [render bind]. now rewrite app_nil_r.
Qed.

(** The digits of a number are lowercase digits, at most [k] of them
    exactly when the number is below [16 ^ k]. *)
Lemma hex_digits_length (n : N) :
  forallb is_lower_hex (hex_digits false n) = true
  /\ (0 < length (hex_digits false n))%nat
  /\ int16_from 0 (hex_digits false n) = Some n
  /\ forall k : nat,
       (0 < k)%nat ->
       ((length (hex_digits false n) <= k)%nat <-> (n < 16 ^ N.of_nat k)%N).
Proof.
  destruct (hex_digits_spec false n) as (ds & -> & Hval & Hds & Hlen).
  pose proof (int16_from_bounds _ _ _ Hval) as Hbound.
  split; [now apply forallb_lower_hex_digits|].
  split.
  { destruct Hlen as [->|Hlen]; [lia|].
    destruct ds; [|cbn [length]; lia].
    injection Hval as <-.
    change (N.of_nat (length (@nil char) - 1)) with 0%N in Hlen.
    rewrite N.pow_0_r in Hlen. lia. }
  split; [assumption|].
  intros k Hk. split.
  - intros Hle.
    assert (16 ^ N.of_nat (length ds) <= 16 ^ N.of_nat k)%N
      by (apply N.pow_le_mono_r; lia).
    lia.
  - intros Hn. destruct Hlen as [->|Hlen]; [lia|].
    assert (16 ^ N.of_nat (length ds - 1) < 16 ^ N.of_nat k)%N as Hpow by lia.
    apply N.pow_lt_mono_r_iff in Hpow; lia.
Qed.

Lemma filter_idempotent_hex (field : str) :
  forallb (fun c => is_hex c || (c =? 45)%N) field = true ->
  forallb is_hex (filter (fun c => negb (c =? 45)%N) field) = true.
Proof.
  induction field as [|c field IH]; [reflexivity|].
  cbn [forallb filter]. intros H. apply andb_true_iff in H as [Hc Hfield].
  destruct (c =? 45)%N eqn:Heq; cbn [negb]; [now apply IH|].
  cbn [forallb]. rewrite orb_false_r in Hc. now rewrite Hc, IH.
Qed.

(** Hyphens inside the field are dropped with the others. *)
Lemma vendor_uuid_digits_with_hyphens (field : str) :
  forallb (fun c => is_hex c || (c =? 45)%N) field = true ->
  replace (lit "-") []
    (strip (lit "{}")
       (replace (lit "uuid:") [] (replace (lit "urn:") [] (vendor_uuid field))))
  = lit "0000" ++ filter (fun c => negb (c =? 45)%N) field
      ++ lit "00001000800000805f9b34fb".
Proof.
  intros Hfield.
  assert (Hu : forallb (fun c => negb (c =? 117)%N) (vendor_uuid field) = true).
  { apply forallb_vendor_uuid; try reflexivity.
    revert Hfield. apply forallb_impl. intros c Hc.
    apply orb_true_iff in Hc as [Hc|Hc].
    - now apply (is_hex_differs 117%N).
    - apply N.eqb_eq in Hc as ->. reflexivity. }
  change (lit "urn:") with (117%N :: lit "rn:").
  change (lit "uuid:") with (117%N :: lit "uid:").
  rewrite (replace_absent _ _ _ (vendor_uuid field) Hu).
  rewrite (replace_absent _ _ _ (vendor_uuid field) Hu).
  replace (vendor_uuid field)
    with (48%N :: (lit "000" ++ field ++ lit "-0000-1000-8000-00805f9b34f")
            ++ [98%N])
    by (unfold vendor_uuid; now rewrite <- !app_assoc).
  rewrite strip_between by reflexivity.
  change (lit "-") with [45%N].
  rewrite replace_one_char.
  rewrite <- !app_assoc.
  change (48%N :: lit "000" ++ field ++ lit "-0000-1000-8000-00805f9b34f" ++ [98%N])
    with (lit "0000" ++ field ++ lit "-0000-1000-8000-00805f9b34fb").
  rewrite !filter_app. reflexivity.
Qed.

Lemma UUID_init_drops_hyphens (field : str) :
  forallb (fun c => is_hex c || (c =? 45)%N) field = true ->
  UUID_init (vendor_uuid field)
  = UUID_init (vendor_uuid (filter (fun c => negb (c =? 45)%N) field)).
Proof.
  intros Hfield. unfold UUID_init.
  rewrite (vendor_uuid_digits_with_hyphens field Hfield).
  now rewrite (vendor_uuid_digits _ (filter_idempotent_hex field Hfield)).
Qed.

Lemma filter_lower_hex (s : str) :
  forallb is_lower_hex s = true -> filter (fun c => negb (c =? 45)%N) s = s.
Proof.
  intros Hs. apply filter_all. revert Hs. apply forallb_impl.
  intros c. now apply lower_hex_differs.
Qed.

Lemma forallb_zeros (p : char -> bool) (k : nat) :
  p (ch "0") = true -> forallb p (repeat (ch "0") k) = true.
Proof.
  intros Hp. apply forallb_forall. intros c Hc.
  now apply repeat_spec in Hc as ->.
Qed.

Lemma format_field_nonneg (v : Z) :
  0 <= v ->
  format_int v {| fill := ch "0"; align := AlignRight; width := 4; upper := false |}
  = repeat (ch "0") (4 - length (hex_digits false (Z.to_N v)))
      ++ hex_digits false (Z.to_N v).
Proof.
  intros Hv. unfold format_int, pad. cbn [fill align width upper].
  replace (v <? 0) with false by (symmetry; apply Z.ltb_ge; lia).
  now replace (Z.abs v) with v by lia.
Qed.

Lemma format_field_negative (v : Z) :
  v < 0 ->
  format_int v {| fill := ch "0"; align := AlignRight; width := 4; upper := false |}
  = repeat (ch "0") (4 - S (length (hex_digits false (Z.to_N (- v)))))
      ++ ch "-" :: hex_digits false (Z.to_N (- v)).
Proof.
  intros Hv. unfold format_int, pad. cbn [fill align width upper].
  replace (v <? 0) with true by (symmetry; apply Z.ltb_lt; lia).
  now replace (Z.abs v) with (- v) by lia.
Qed.

Lemma hex4_is_the_field (v : Z) :
  0 <= v < 0x10000 ->
  hex4 v
  = format_int v {| fill := ch "0"; align := AlignRight; width := 4; upper := false |}.
Proof.
  intros Hv. pose proof (field_of_short_code v Hv) as H.
  rewrite field_format in H. now apply Return_inj in H.
Qed.

(** Four digits without padding: the field of a value from 0x1000 on. *)
Lemma hex4_is_the_digits (v : Z) :
  0x1000 <= v < 0x10000 -> hex4 v = hex_digits false (Z.to_N v).
Proof.
  intros Hv. rewrite hex4_is_the_field, format_field_nonneg by lia.
  destruct (hex_digits_length (Z.to_N v)) as (_ & _ & _ & Hlen).
  assert (H4 : (length (hex_digits false (Z.to_N v)) <= 4)%nat).
  { apply Hlen; [lia|]. change (16 ^ N.of_nat 4)%N with 65536%N. lia. }
  assert (H3 : ~ (length (hex_digits false (Z.to_N v)) <= 3)%nat).
  { intros H. apply Hlen in H; [|lia].
    change (16 ^ N.of_nat 3)%N with 4096%N in H. lia. }
  now replace (4 - length (hex_digits false (Z.to_N v)))%nat with 0%nat by lia.
Qed.

(** X2: the derivation returns on exactly the values whose field leaves
    four digits once the hyphens are gone: the 16-bit values, and the
    negatives of the values from 0x1000 to 0xFFFF, whose sign the
    constructor drops with the hyphens, so that they give the UUID of
    their absolute value.  On every other integer the constructor raises:
    the string is badly formed. *)
Theorem template_uuid_domain (v : Z) :
  if ((0 <=? v) && (v <? 0x10000)) || ((0x1000 <=? - v) && (- v <? 0x10000))
  then template_uuid v
       = Return {| int := Z.abs v * 2 ^ 96 + base_uuid_int |}
  else template_uuid v
       = Raise (ValueError badly_formed_hexadecimal_UUID_string).
Proof.
  unfold template_uuid. rewrite template_around_field, field_format.
  cbn [bind].
  destruct (Z.ltb_spec v 0) as [Hneg|Hpos].
  - (* a negative value: the field holds a sign *)
    replace ((0 <=? v) && (v <? 0x10000)) with false
      by (symmetry; apply andb_false_iff; left; apply Z.leb_gt; lia).
    cbn [orb]. rewrite (format_field_negative v Hneg).
    destruct (hex_digits_length (Z.to_N (- v))) as (Hds & Hpos & _ & Hlen).
    set (ds := hex_digits false (Z.to_N (- v))) in *.
    rewrite UUID_init_drops_hyphens.
    2:{ rewrite forallb_app. cbn [forallb].
        rewrite (forallb_zeros _ _ eq_refl). cbn [andb].
        revert Hds. apply forallb_impl. intros c Hc.
        now rewrite (is_lower_hex_is_hex c Hc). }
    rewrite filter_app, filter_hyphen, (filter_lower_hex ds Hds).
    rewrite (filter_all _ (repeat _ _)) by (now apply forallb_zeros).
    destruct ((0x1000 <=? - v) && (- v <? 0x10000)) eqn:Hrange.
    + apply andb_true_iff in Hrange as [Hlo Hhi].
      apply Z.leb_le in Hlo. apply Z.ltb_lt in Hhi.
      unfold ds. rewrite <- (hex4_is_the_digits (- v)) by lia.
      change (length (hex4 (- v))) with 4%nat. cbn [Nat.sub repeat app].
      replace (Z.abs v) with (- v) by lia.
      apply UUID_of_hex4. lia.
    + pose proof (UUID_init_vendor_uuid (repeat (ch "0") (4 - S (length ds)) ++ ds))
        as Hinit.
      rewrite length_app, repeat_length in Hinit.
      replace (4 - S (length ds) + length ds =? 4)%nat with false in Hinit.
      * apply Hinit. rewrite forallb_app, (forallb_zeros _ _ eq_refl).
        revert Hds. apply forallb_impl. intros c. apply is_lower_hex_is_hex.
      * symmetry. apply Nat.eqb_neq. intros Heq.
        assert (length ds = 4%nat) by lia.
        assert (H4 : (length ds <= 4)%nat) by lia.
        apply Hlen in H4; [|lia].
        assert (H3 : ~ (length ds <= 3)%nat) by lia.
        rewrite Hlen in H3 by lia.
        change (16 ^ N.of_nat 4)%N with 65536%N in H4.
        change (16 ^ N.of_nat 3)%N with 4096%N in H3.
        apply andb_false_iff in Hrange as [Hr|Hr];
          [apply Z.leb_gt in Hr | apply Z.ltb_ge in Hr]; lia.
  - (* a value from 0 on: the field is its digits *)
    replace ((0x1000 <=? - v) && (- v <? 0x10000)) with false
      by (symmetry; apply andb_false_iff; left; apply Z.leb_gt; lia).
    rewrite orb_false_r.
    replace (0 <=? v) with true by (symmetry; apply Z.leb_le; lia).
    cbn [andb].
    destruct (Z.ltb_spec v 0x10000) as [Hlt|Hge].
    + rewrite <- (hex4_is_the_field v) by lia.
      replace (Z.abs v) with v by lia.
      apply UUID_of_hex4. lia.
    + rewrite (format_field_nonneg v Hpos).
      destruct (hex_digits_length (Z.to_N v)) as (Hds & _ & _ & Hlen).
      set (ds := hex_digits false (Z.to_N v)) in *.
      assert (H4 : ~ (length ds <= 4)%nat).
      { intros H. apply Hlen in H; [|lia].
        change (16 ^ N.of_nat 4)%N with 65536%N in H. lia. }
      replace (4 - length ds)%nat with 0%nat by lia. cbn [repeat app].
      pose proof (UUID_init_vendor_uuid ds) as Hinit.
      replace (length ds =? 4)%nat with false in Hinit
        by (symmetry; apply Nat.eqb_neq; lia).
      apply Hinit. revert Hds. apply forallb_impl.
      intros c. apply is_lower_hex_is_hex.
Qed.

(** ** The methods of the compiled pattern *)

(** One run of the pattern from the start of the subject: a match ends at
    index 17, after six pairs, where [$] matches. *)
Lemma run_mac_start (s : str) :
  run MAC_ADDRESS_REGEX (0%nat, s)
  = if six_hex_pairsb (firstn 17 s) && at_end (skipn 17 s)
    then [(17%nat, skipn 17 s)]
    else [].
Proof.
  destruct (run MAC_ADDRESS_REGEX (0%nat, s)) as [|[e rest] ps] eqn:Hrun.
  - destruct (six_hex_pairsb (firstn 17 s) && at_end (skipn 17 s)) eqn:Hb;
      [|reflexivity].
    apply andb_true_iff in Hb as [Hbody Hend].
    pose proof (run_mac_intro _ _ Hbody Hend) as Hrun'.
    rewrite firstn_skipn in Hrun'. unfold str in *. congruence.
  - apply run_mac_inv in Hrun as (-> & He & Hend & Hsplit & Hbody).
    cbn [fst snd] in *. subst e.
    rewrite <- (firstn_skipn 17 s) in Hsplit at 1.
    apply app_inv_head in Hsplit. now rewrite Hsplit, Hbody, Hend.
Qed.

(** Away from the start of the subject [^] does not match. *)
Lemma run_mac_later (i : nat) (s : str) :
  run MAC_ADDRESS_REGEX (S i, s) = [].
Proof. reflexivity. Qed.

Lemma search_from_later (s : str) :
  forall i, search_from MAC_ADDRESS_REGEX (S i) s = None.
Proof.
  induction s as [|c s IH]; intros i; cbn [search_from];
    rewrite run_mac_later; [reflexivity | apply IH].
Qed.

Lemma six_pairs_then_end (s : str) :
  six_hex_pairsb (firstn 17 s) && at_end (skipn 17 s) = true
  <-> six_hex_pairs s \/ exists body, six_hex_pairs body /\ s = body ++ [10%N].
Proof.
  split.
  - intros H. apply andb_true_iff in H as [Hbody Hend].
    apply six_hex_pairs_iff in Hbody.
    rewrite <- (firstn_skipn 17 s).
    destruct (skipn 17 s) as [|c [|? ?]]; [| |discriminate Hend].
    + left. now rewrite app_nil_r.
    + right. apply N.eqb_eq in Hend as ->. eauto.
  - intros [H|(body & H & ->)]; pose proof (six_hex_pairs_length _ H) as Hlen;
      apply six_hex_pairs_iff in H.
    + rewrite firstn_all2, skipn_all2 by lia. now rewrite H.
    + rewrite firstn_app, skipn_app, Hlen.
      rewrite firstn_all2, skipn_all2 by lia.
      rewrite Nat.sub_diag. cbn [firstn skipn app].
      now rewrite app_nil_r, H.
Qed.

(** X3: [MAC_ADDRESS_REGEX.match] finds a match exactly in six pairs of
    hexadecimal digits separated by colons and in such a string followed
    by a single newline; the match always ends at index 17. *)
Theorem mac_pattern_match (s : str) :
  (Pattern_match MAC_ADDRESS_REGEX s = Some 17%nat
   \/ Pattern_match MAC_ADDRESS_REGEX s = None)
  /\ (Pattern_match MAC_ADDRESS_REGEX s = Some 17%nat
      <-> six_hex_pairs s
          \/ exists body, six_hex_pairs body /\ s = body ++ [10%N]).
Proof.
  rewrite <- six_pairs_then_end.
  unfold Pattern_match. rewrite run_mac_start.
  destruct (six_hex_pairsb (firstn 17 s) && at_end (skipn 17 s)); cbn [fst].
  - split; [now left | tauto].
  - split; [now right | split; discriminate].
Qed.

(** X4: the pattern begins with [^], so [search] finds nothing that [match]
    does not: a match starts at index 0, and an address inside a longer
    text is not found. *)
Theorem mac_pattern_search_is_match (s : str) :
  Pattern_search MAC_ADDRESS_REGEX s
  = match Pattern_match MAC_ADDRESS_REGEX s with
    | Some e => Some (0%nat, e)
    | None => None
    end.
Proof.
  unfold Pattern_search, Pattern_match.
  destruct s as [|c s]; cbn [search_from]; unfold str in *;
    rewrite run_mac_start;
    match goal with |- context [if ?b then _ else _] => destruct b end;
    try reflexivity.
  apply search_from_later.
Qed.

(** X5: [MAC_ADDRESS_REGEX.fullmatch] finds a match exactly in six pairs of
    hexadecimal digits separated by colons, 17 characters with nothing
    after them; whatever it accepts, [match] accepts. *)
Theorem mac_pattern_fullmatch (s : str) :
  (Pattern_fullmatch MAC_ADDRESS_REGEX s = Some 17%nat
   \/ Pattern_fullmatch MAC_ADDRESS_REGEX s = None)
  /\ (Pattern_fullmatch MAC_ADDRESS_REGEX s = Some 17%nat
      <-> six_hex_pairs s /\ length s = 17%nat)
  /\ (Pattern_fullmatch MAC_ADDRESS_REGEX s = None
      \/ Pattern_match MAC_ADDRESS_REGEX s = Some 17%nat).
Proof.
  assert (Hiff : Pattern_fullmatch MAC_ADDRESS_REGEX s <> None <-> six_hex_pairs s)
    by apply mac_fullmatch_iff.
  unfold Pattern_fullmatch, Pattern_match in *. rewrite run_mac_start in *.
  destruct (six_hex_pairsb (firstn 17 s) && at_end (skipn 17 s));
    cbn [filter snd fst] in *.
  - destruct (skipn 17 s); cbn [fst] in *.
    + split; [now left|]. split; [|now right].
      split; [intros _|reflexivity].
      assert (Hs : six_hex_pairs s) by (apply Hiff; discriminate).
      split; [assumption | now apply six_hex_pairs_length].
    + split; [now right|]. split; [|now left].
      split; [discriminate|]. intros [Hs _]. apply Hiff in Hs. now contradiction Hs.
  - split; [now right|]. split; [|now left].
    split; [discriminate|]. intros [Hs _]. apply Hiff in Hs. now contradiction Hs.
Qed.

(** ** Which integers convert *)

Lemma from_value_returns_iff {A : Type} `{IntEnum A} (v : Z) :
  (exists m, from_value A v = Return m) <-> In v (map value members).
Proof.
  destruct (from_value_closed (A := A) v) as [(m & Hin & Hv & Hcall)|[Hout Hcall]].
  - split; [|eauto]. intros _. rewrite <- Hv. now apply in_map.
  - split; [|contradiction]. intros [m Hm]. congruence.
Qed.

Ltac one_of_the_values :=
  cbn [map members value DotCharacteristic_IntEnum LuxaforLED_IntEnum
         LuxaforCommand_IntEnum LuxaforWavePattern_IntEnum
         LuxaforPattern_IntEnum PushEvent_IntEnum In];
  lia.

(** X6: the integers that convert into each enumeration: 0x1234 to 0x1236
    for DotCharacteristic, 1, 2 and 255 for LuxaforLED, 0xA1 to 0xA4 and
    0xA6 (not 0xA5) for LuxaforCommand, 1 to 5 for LuxaforWavePattern, 1 to
    8 for LuxaforPattern and 0x30 to 0x33 for PushEvent; a member returned
    for [v] has the value [v]. *)
Theorem conversion_domains (v : Z) :
  ((exists m, from_value DotCharacteristic v = Return m)
   <-> 0x1234 <= v <= 0x1236)
  /\ ((exists m, from_value LuxaforLED v = Return m)
      <-> v = 1 \/ v = 2 \/ v = 255)
  /\ ((exists m, from_value LuxaforCommand v = Return m)
      <-> 0xA1 <= v <= 0xA4 \/ v = 0xA6)
  /\ ((exists m, from_value LuxaforWavePattern v = Return m) <-> 1 <= v <= 5)
  /\ ((exists m, from_value LuxaforPattern v = Return m) <-> 1 <= v <= 8)
  /\ ((exists m, from_value PushEvent v = Return m) <-> 0x30 <= v <= 0x33)
  /\ (forall m : DotCharacteristic,
        from_value DotCharacteristic v = Return m <-> value m = v).
Proof.
  do 6 (split; [rewrite from_value_returns_iff; one_of_the_values|]).
  intros m. split.
  - intros Hm. now apply from_value_Return in Hm.
  - intros <-. apply from_value_value; [distinct_values | destruct m; simpl; tauto].
Qed.

(** X7: every code of LuxaforLED, LuxaforCommand, LuxaforWavePattern,
    LuxaforPattern and PushEvent is a byte other than the placeholder
    LUXAFOR_DONT_CARE, and the placeholder converts into none of the six
    enumerations. *)
Theorem placeholder_is_no_code :
  (forall m : LuxaforLED, LUXAFOR_DONT_CARE < value m <= 255)
  /\ (forall m : LuxaforCommand, LUXAFOR_DONT_CARE < value m <= 255)
  /\ (forall m : LuxaforWavePattern, LUXAFOR_DONT_CARE < value m <= 255)
  /\ (forall m : LuxaforPattern, LUXAFOR_DONT_CARE < value m <= 255)
  /\ (forall m : PushEvent, LUXAFOR_DONT_CARE < value m <= 255)
  /\ from_value DotCharacteristic LUXAFOR_DONT_CARE
     = Raise (ValueError (not_a_valid 0 (lit "DotCharacteristic")))
  /\ from_value LuxaforLED LUXAFOR_DONT_CARE
     = Raise (ValueError (not_a_valid 0 (lit "LuxaforLED")))
  /\ from_value LuxaforCommand LUXAFOR_DONT_CARE
     = Raise (ValueError (not_a_valid 0 (lit "LuxaforCommand")))
  /\ from_value LuxaforWavePattern LUXAFOR_DONT_CARE
     = Raise (ValueError (not_a_valid 0 (lit "LuxaforWavePattern")))
  /\ from_value LuxaforPattern LUXAFOR_DONT_CARE
     = Raise (ValueError (not_a_valid 0 (lit "LuxaforPattern")))
  /\ from_value PushEvent LUXAFOR_DONT_CARE
     = Raise (ValueError (not_a_valid 0 (lit "PushEvent"))).
Proof.
  unfold LUXAFOR_DONT_CARE.
  repeat split; try reflexivity; destruct m; simpl; lia.
Qed.

(** X8: a command opcode is the value of no member of another enumeration,
    and neither is a push event code: converting one into LuxaforLED,
    LuxaforWavePattern, LuxaforPattern, or into the other of the two,
    raises. *)
Theorem opcodes_and_events_stand_apart :
  (forall c : LuxaforCommand,
      from_value LuxaforLED (value c)
      = Raise (ValueError (not_a_valid (value c) (lit "LuxaforLED")))
      /\ from_value LuxaforWavePattern (value c)
         = Raise (ValueError (not_a_valid (value c) (lit "LuxaforWavePattern")))
      /\ from_value LuxaforPattern (value c)
         = Raise (ValueError (not_a_valid (value c) (lit "LuxaforPattern")))
      /\ from_value PushEvent (value c)
         = Raise (ValueError (not_a_valid (value c) (lit "PushEvent"))))
  /\ (forall e : PushEvent,
        from_value LuxaforLED (value e)
        = Raise (ValueError (not_a_valid (value e) (lit "LuxaforLED")))
        /\ from_value LuxaforWavePattern (value e)
           = Raise (ValueError (not_a_valid (value e) (lit "LuxaforWavePattern")))
        /\ from_value LuxaforPattern (value e)
           = Raise (ValueError (not_a_valid (value e) (lit "LuxaforPattern")))
        /\ from_value LuxaforCommand (value e)
           = Raise (ValueError (not_a_valid (value e) (lit "LuxaforCommand")))).
Proof.
  split; intros m; destruct m; repeat split; reflexivity.
Qed.

(** ** The UUIDs of the members *)

Lemma uuid_body_value (m : DotCharacteristic) :
  uuid_body m = Return {| int := value m * 2 ^ 96 + base_uuid_int |}
  /\ UUID_str {| int := value m * 2 ^ 96 + base_uuid_int |}
     = vendor_uuid (hex4 (value m)).
Proof.
  assert (Hm : 0 <= value m < 0x10000) by (destruct m; simpl; lia).
  destruct (UUID_of_hex4 (value m) Hm) as [Hinit Hstr].
  split; [|assumption].
  unfold uuid_body.
  now rewrite template_around_field, (field_of_short_code _ Hm).
Qed.

Lemma value_injective (m m' : DotCharacteristic) : value m = value m' -> m = m'.
Proof. destruct m, m'; simpl; intros H; (reflexivity || discriminate H). Qed.

Lemma uuid_own_entry (d : instance_dicts) (m : DotCharacteristic) :
  snd (uuid m d) m
  = match d m with
    | Some u => Some u
    | None => Some {| int := value m * 2 ^ 96 + base_uuid_int |}
    end.
Proof.
  unfold uuid. destruct (d m) as [u|] eqn:Hm; [assumption|].
  rewrite (proj1 (uuid_body_value m)). apply store_same.
Qed.

Lemma uuid_reads_cons (m : DotCharacteristic) (ms : list DotCharacteristic)
    (d : instance_dicts) :
  snd (uuid_reads (m :: ms) d) = snd (uuid_reads ms (snd (uuid m d))).
Proof.
  unfold uuid_reads; fold uuid_reads. destruct (uuid m d) as [r d'].
  cbn [snd]. now destruct (uuid_reads ms d').
Qed.

(** The store after reads: what it held before, and the UUID of each
    member read that it did not hold. *)
Lemma uuid_reads_store (ms : list DotCharacteristic) :
  forall (d : instance_dicts) (m : DotCharacteristic),
    snd (uuid_reads ms d) m
    = match d m with
      | Some u => Some u
      | None =>
          if existsb (DotCharacteristic_eqb m) ms
          then Some {| int := value m * 2 ^ 96 + base_uuid_int |}
          else None
      end.
Proof.
  induction ms as [|x ms IH]; intros d m.
  - cbn [uuid_reads snd existsb]. now destruct (d m).
  - rewrite uuid_reads_cons, IH. cbn [existsb].
    destruct (DotCharacteristic_eqb m x) eqn:Heq.
    + apply DotCharacteristic_eqb_eq in Heq as ->.
      rewrite uuid_own_entry. now destruct (d x).
    + rewrite uuid_other_entries; [reflexivity|].
      intros ->. now rewrite (proj2 (DotCharacteristic_eqb_eq x x) eq_refl) in Heq.
Qed.

(** X9: after any reads from a module just loaded, the store holds an
    entry for exactly the members that were read, and the entry of a
    member is its UUID, the value shifted onto the Bluetooth base UUID;
    the order and the number of the reads do not matter. *)
Theorem cache_holds_the_members_read :
  forall (ms : list DotCharacteristic) (m : DotCharacteristic),
    after ms m
    = (if existsb (DotCharacteristic_eqb m) ms
       then Some {| int := value m * 2 ^ 96 + base_uuid_int |}
       else None)
    /\ ((exists u, after ms m = Some u) <-> In m ms)
    /\ (after ms m = None <-> ~ In m ms).
Proof.
  intros ms m. unfold after. rewrite uuid_reads_store. cbn [no_cache].
  assert (Hin : existsb (DotCharacteristic_eqb m) ms = true <-> In m ms).
  { rewrite existsb_exists. split.
    - intros (x & Hx & Heq). now apply DotCharacteristic_eqb_eq in Heq as ->.
    - intros H. exists m. split; [assumption|].
      now apply DotCharacteristic_eqb_eq. }
  destruct (existsb (DotCharacteristic_eqb m) ms).
  - split; [reflexivity|]. split.
    + split; [intros _; now apply Hin | eauto].
    + split; [discriminate|]. intros H. contradiction H. now apply Hin.
  - split; [reflexivity|]. split.
    + split; [intros [u Hu]; discriminate Hu|].
      intros H. apply Hin in H. discriminate H.
    + split; [|reflexivity]. intros _ H. apply Hin in H. discriminate H.
Qed.

(** X10: whatever was read before, a member's UUID is its value shifted by
    96 bits onto the Bluetooth base UUID and str(member) is the vendor
    template around the four digits of the value; two members have the
    same UUID, or the same text, only when they are the same member. *)
Theorem member_uuids_are_distinct :
  forall (ms ms' : list DotCharacteristic) (m m' : DotCharacteristic),
    fst (uuid m (after ms))
    = Return {| int := value m * 2 ^ 96 + base_uuid_int |}
    /\ fst (DotCharacteristic_str m (after ms))
       = Return (vendor_uuid (hex4 (value m)))
    /\ (fst (uuid m (after ms)) = fst (uuid m' (after ms')) <-> m = m')
    /\ (fst (DotCharacteristic_str m (after ms))
        = fst (DotCharacteristic_str m' (after ms')) <-> m = m').
Proof.
  intros ms ms' m m'.
  assert (Hu : forall l x, fst (uuid x (after l))
                           = Return {| int := value x * 2 ^ 96 + base_uuid_int |}).
  { intros l x. rewrite (uuid_result _ x (after_consistent l)).
    apply uuid_body_value. }
  assert (Hs : forall l x, fst (DotCharacteristic_str x (after l))
                           = Return (vendor_uuid (hex4 (value x)))).
  { intros l x. rewrite DotCharacteristic_str_result, Hu. cbn [bind].
    f_equal. apply uuid_body_value. }
  split; [apply Hu|]. split; [apply Hs|].
  rewrite !Hu, !Hs. split; (split; [|now intros ->]).
  - intros H. apply Return_inj in H. apply (f_equal int) in H.
    cbn [int] in H. apply value_injective. lia.
  - intros H. apply Return_inj in H.
    assert (Hm : 0 <= value m < 0x10000) by (destruct m; simpl; lia).
    assert (Hm' : 0 <= value m' < 0x10000) by (destruct m'; simpl; lia).
    pose proof (proj1 (UUID_of_hex4 _ Hm)) as Hi.
    pose proof (proj1 (UUID_of_hex4 _ Hm')) as Hi'.
    rewrite H, Hi' in Hi. apply Return_inj in Hi. apply (f_equal int) in Hi.
    cbn [int] in Hi. apply value_injective. lia.
Qed.

(** ** The arguments of the template *)

Lemma template_ignores_further_arguments (v : Z) (rest : list Z) :
  str_format UUID_TEMPLATE (v :: rest) = str_format UUID_TEMPLATE [v].
Proof.
  unfold str_format.
  replace (scan Outside UUID_TEMPLATE)
    with (Some (map Text (lit "0000")
                ++ Field {| fill := ch "0"; align := AlignRight;
                            width := 4; upper := false |}
                :: map Text (lit "-0000-1000-8000-00805f9b34fb")))
    by (vm_compute; reflexivity).
  reflexivity.
Qed.

(** X11: the template has one field.  Formatting it without an argument
    raises IndexError; with arguments it returns the vendor UUID around
    the field of the first one and ignores the others.  The field is never
    cut: it has at least 4 characters, and exactly 4 for the values above
    -0x1000 and below 0x10000. *)
Theorem template_has_one_field :
  str_format UUID_TEMPLATE [] = Raise IndexError
  /\ forall (v : Z) (rest : list Z),
       exists field,
         str_format (lit "{:0>4x}") [v] = Return field
         /\ str_format UUID_TEMPLATE (v :: rest) = Return (vendor_uuid field)
         /\ (4 <= length field)%nat
         /\ (length field = 4%nat <-> - 0x1000 < v < 0x10000).
Proof.
  split; [vm_compute; reflexivity|]. intros v rest.
  rewrite template_ignores_further_arguments, template_around_field, field_format.
  eexists. split; [reflexivity|]. split; [reflexivity|].
  destruct (Z.ltb_spec v 0) as [Hneg|Hpos].
  - rewrite (format_field_negative v Hneg).
    destruct (hex_digits_length (Z.to_N (- v))) as (_ & _ & _ & Hlen).
    rewrite length_app, repeat_length. cbn [length].
    specialize (Hlen 3%nat ltac:(lia)).
    change (16 ^ N.of_nat 3)%N with 4096%N in Hlen.
    split; [lia|]. split; [intros H | intros H]; lia.
  - rewrite (format_field_nonneg v Hpos).
    destruct (hex_digits_length (Z.to_N v)) as (_ & _ & _ & Hlen).
    rewrite length_app, repeat_length.
    specialize (Hlen 4%nat ltac:(lia)).
    change (16 ^ N.of_nat 4)%N with 65536%N in Hlen.
    split; [lia|]. split; [intros H | intros H]; lia.
Qed.
